(** * Per-thread stack and sample selectors of the profiler

    A shallow embedding of [src/selectors/per-thread/stack-sample.js]: the
    selectors built by [getStackAndSampleSelectorsPerThread], the helpers of
    [utils/flow], and the parts of [profile-logic] the selectors delegate to.

    JavaScript values are embedded as follows: [null]/[undefined] and optional
    fields are [option]; numbers that are times are IEEE doubles ([float]);
    indexes are [nat]; strategies are the strings the code switches on; a
    [throw] is the [Throw] constructor of [Result]. *)

From Stdlib Require Import PrimFloat ZArith Lia.
From stdpp Require Import base option list strings gmap.

(** ** Results of computations that may throw *)

Inductive Result (A : Type) : Type :=
| Ok (value : A)
| Throw (message : string).
Arguments Ok {A} value.
Arguments Throw {A} message.

#[global] Instance Result_ret : MRet Result := fun A a => Ok a.
#[global] Instance Result_bind : MBind Result := fun A B k r =>
  match r with
  | Ok a => k a
  | Throw message => Throw message
  end.
#[global] Instance Result_fmap : FMap Result := fun A B f r =>
  match r with
  | Ok a => Ok (f a)
  | Throw message => Throw message
  end.

(** ** utils/flow *)

Module Flow.

(** Modelled from the spec: [utils/flow] is not part of the sources at hand.
    [ensureExists(item, message)] hands back an item that is present and
    fails hard with the given message on [null] or [undefined]. *)
Definition ensureExists {A : Type} (item : option A) (message : string) : Result A :=
  match item with
  | Some a => Ok a
  | None => Throw message
  end.

(** Modelled from the spec: [utils/flow] is not part of the sources at hand.
    An unhandled variant reaching a consumer is a fatal programming error that
    surfaces immediately; the optional second argument is the message. *)
Definition assertExhaustiveCheck {A : Type} (notValid : string)
    (errorMessage : option string) : Result A :=
  Throw (default ("There was an unhandled case for the value: " ++ notValid)%string
           errorMessage).

End Flow.

(** ** types/profile and types/profile-derived

    The index and unit types of the source are names for [nat] and [float]. *)

Abbreviation IndexIntoStackTable := nat (only parsing).
Abbreviation IndexIntoFrameTable := nat (only parsing).
Abbreviation IndexIntoFuncTable := nat (only parsing).
Abbreviation IndexIntoCategoryList := nat (only parsing).
Abbreviation IndexIntoCallNodeTable := nat (only parsing).
Abbreviation Milliseconds := float (only parsing).

Record Stack := {
  frameIndex : IndexIntoFrameTable;
  parentStackIndex : option IndexIntoStackTable
}.

Record Frame := {
  funcIndex : IndexIntoFuncTable;
  categoryIndex : IndexIntoCategoryList
}.

Record Func := {
  funcName : string;
  funcOrigin : string
}.

Record SamplesTable := {
  stack : list (option IndexIntoStackTable);
  time : list Milliseconds
}.

Record JsAllocationsTable := {
  jsAllocationsTime : list Milliseconds;
  jsAllocationsWeight : list Z;
  jsAllocationsStack : list (option IndexIntoStackTable)
}.

Record NativeAllocationsTable := {
  nativeAllocationsTime : list Milliseconds;
  nativeAllocationsWeight : list Z;
  nativeAllocationsStack : list (option IndexIntoStackTable);
  memoryAddress : option (list Z)
}.

Record Thread := {
  samples : SamplesTable;
  jsAllocations : option JsAllocationsTable;
  nativeAllocations : option NativeAllocationsTable;
  stackTable : list Stack;
  frameTable : list Frame;
  funcTable : list Func;
  isJsTracer : option bool
}.

Record StartEndRange := {
  rangeStart : Milliseconds;
  rangeEnd : Milliseconds
}.

Record CallNode := {
  parentCallNodeIndex : option IndexIntoCallNodeTable;
  callNodeFunc : IndexIntoFuncTable;
  callNodeCategory : IndexIntoCategoryList;
  depth : nat
}.

Record CallNodeInfo := {
  callNodeTable : list CallNode;
  stackIndexToCallNodeIndex : list (option IndexIntoCallNodeTable)
}.

Abbreviation CallNodePath := (list IndexIntoFuncTable) (only parsing).

Inductive SelectedState : Type :=
| Selected
| UnselectedBefore
| UnselectedAfter
| FilteredOutByTab.

(** The strategies are the string literals of [CallTreeSummaryStrategy]. *)
Abbreviation CallTreeSummaryStrategy := string (only parsing).

(** What [getSamplesForCallTree] hands to the call tree:
    [SamplesTable | JsAllocationsTable | NativeAllocationsTable]. *)
Inductive SamplesLikeTable : Type :=
| OfSamples (table : SamplesTable)
| OfJsAllocations (table : JsAllocationsTable)
| OfNativeAllocations (table : NativeAllocationsTable).

Record ThreadViewOptions := {
  selectedCallNodePath : CallNodePath;
  rightClickedCallNodePath : option CallNodePath;
  expandedCallNodePaths : list CallNodePath
}.

(** ** The ambient state and the selectors of other modules

    The thread variants, the view options and the session preferences are
    produced outside of this file; the state records what their selectors
    return. *)

Record State := {
  stateThread : Thread;
  stateFilteredThread : Thread;
  statePreviewFilteredThread : Thread;
  stateTabFilteredThread : Thread;
  stateViewOptions : ThreadViewOptions;
  stateProfileInterval : Milliseconds;
  stateDefaultCategory : IndexIntoCategoryList;
  stateLastSelectedCallTreeSummaryStrategy : CallTreeSummaryStrategy;
  stateInvertCallstack : bool
}.

Definition Selector (T : Type) : Type := State -> Result T.

Module threadSelectors.
Definition getThread : Selector Thread := fun state => Ok (stateThread state).
Definition getFilteredThread : Selector Thread :=
  fun state => Ok (stateFilteredThread state).
Definition getPreviewFilteredThread : Selector Thread :=
  fun state => Ok (statePreviewFilteredThread state).
Definition getTabFilteredThread : Selector Thread :=
  fun state => Ok (stateTabFilteredThread state).
Definition getViewOptions : Selector ThreadViewOptions :=
  fun state => Ok (stateViewOptions state).
End threadSelectors.

Module ProfileSelectors.
Definition getProfileInterval : Selector Milliseconds :=
  fun state => Ok (stateProfileInterval state).
Definition getDefaultCategory : Selector IndexIntoCategoryList :=
  fun state => Ok (stateDefaultCategory state).
End ProfileSelectors.

Module UrlState.
Definition getLastSelectedCallTreeSummaryStrategy : Selector CallTreeSummaryStrategy :=
  fun state => Ok (stateLastSelectedCallTreeSummaryStrategy state).
Definition getInvertCallstack : Selector bool :=
  fun state => Ok (stateInvertCallstack state).
End UrlState.

(** ** What a selector made by [createSelector] computes

    The input selectors are read in order, then the result function is applied
    to what they returned; a throw of an input selector or of the result
    function propagates. The cache that [createSelector] keeps is modelled in
    [DerivationGraph] below. *)

Definition createSelector1 {A R : Type} (s1 : Selector A)
    (resultFunc : A -> Result R) : Selector R :=
  fun state => a ← s1 state; resultFunc a.

Definition createSelector2 {A B R : Type} (s1 : Selector A) (s2 : Selector B)
    (resultFunc : A -> B -> Result R) : Selector R :=
  fun state => a ← s1 state; b ← s2 state; resultFunc a b.

Definition createSelector4 {A B C D R : Type} (s1 : Selector A) (s2 : Selector B)
    (s3 : Selector C) (s4 : Selector D)
    (resultFunc : A -> B -> C -> D -> Result R) : Selector R :=
  fun state =>
    a ← s1 state; b ← s2 state; c ← s3 state; d ← s4 state; resultFunc a b c d.

(** ** profile-logic/profile-data *)

Module ProfileData.

(** *** The call-node table builder *)

Record CallNodeBuilder := {
  builtCallNodes : list CallNode;
  callNodeByParentAndFunc :
    gmap (option IndexIntoCallNodeTable * IndexIntoFuncTable) IndexIntoCallNodeTable;
  builtStackIndexToCallNodeIndex : list (option IndexIntoCallNodeTable)
}.

Definition emptyCallNodeBuilder : CallNodeBuilder :=
  {| builtCallNodes := [];
     callNodeByParentAndFunc := ∅;
     builtStackIndexToCallNodeIndex := [] |}.

(** The call node the parent stack was collapsed to: [Some None] is the
    synthetic root (the stack has no parent), [None] says that the parent has
    no call node to hang the stack under. *)
Definition parentCallNodeOf (mapping : list (option IndexIntoCallNodeTable))
    (s : Stack) : option (option IndexIntoCallNodeTable) :=
  match parentStackIndex s with
  | None => Some None
  | Some parentStack =>
      match mapping !! parentStack with
      | Some (Some parentCallNode) => Some (Some parentCallNode)
      | _ => None
      end
  end.

Definition depthUnder (nodes : list CallNode)
    (parent : option IndexIntoCallNodeTable) : nat :=
  match parent with
  | None => 0
  | Some p => match nodes !! p with
              | Some parentNode => depth parentNode + 1
              | None => 0
              end
  end.

(** Record the call node of the stack being walked; [None] is no mapping. *)
Definition recordMapping (b : CallNodeBuilder) (c : option IndexIntoCallNodeTable)
    : CallNodeBuilder :=
  {| builtCallNodes := builtCallNodes b;
     callNodeByParentAndFunc := callNodeByParentAndFunc b;
     builtStackIndexToCallNodeIndex := builtStackIndexToCallNodeIndex b ++ [c] |}.

(** Allocate the next call node, one level below its parent, with the category
    of the frame that is first seen for the key. *)
Definition addCallNode (b : CallNodeBuilder) (parent : option IndexIntoCallNodeTable)
    (frame : Frame) : CallNodeBuilder :=
  {| builtCallNodes :=
       builtCallNodes b ++
       [ {| parentCallNodeIndex := parent;
            callNodeFunc := funcIndex frame;
            callNodeCategory := categoryIndex frame;
            depth := depthUnder (builtCallNodes b) parent |} ];
     callNodeByParentAndFunc :=
       <[ (parent, funcIndex frame) := length (builtCallNodes b) ]>
         (callNodeByParentAndFunc b);
     builtStackIndexToCallNodeIndex := builtStackIndexToCallNodeIndex b |}.

(** One step of the walk over the stack table: reuse the call node keyed by
    (parent call node, function), or allocate the next one. *)
Definition addStack (frames : list Frame) (b : CallNodeBuilder) (s : Stack)
    : CallNodeBuilder :=
  match frames !! frameIndex s, parentCallNodeOf (builtStackIndexToCallNodeIndex b) s with
  | Some frame, Some parent =>
      match callNodeByParentAndFunc b !! (parent, funcIndex frame) with
      | Some existing => recordMapping b (Some existing)
      | None =>
          recordMapping (addCallNode b parent frame) (Some (length (builtCallNodes b)))
      end
  | _, _ => recordMapping b None
  end.

Definition buildCallNodes (frames : list Frame) (stacks : list Stack)
    : CallNodeBuilder :=
  foldl (addStack frames) emptyCallNodeBuilder stacks.

(** Modelled from the spec: [profile-logic/profile-data] is not part of the
    sources at hand. The builder walks the stacks in table order; for each
    stack it looks up the call node keyed by (parent call node, function) and
    reuses it, else allocates a new one one level below its parent, with the
    category first seen for the key; it records the call node of the stack.
    A stack without a frame of its own gets no mapping, and so does a stack
    under a parent that has none. *)
Definition getCallNodeInfo (stacks : list Stack) (frames : list Frame)
    (funcs : list Func) (defaultCategory : IndexIntoCategoryList) : CallNodeInfo :=
  let b := buildCallNodes frames stacks in
  {| callNodeTable := builtCallNodes b;
     stackIndexToCallNodeIndex := builtStackIndexToCallNodeIndex b |}.

(** *** Paths *)

(** The functions from the root down to a stack, following the parents. *)
Fixpoint stackFuncPathFuel (fuel : nat) (stacks : list Stack) (frames : list Frame)
    (s : IndexIntoStackTable) : option CallNodePath :=
  match fuel with
  | 0 => None
  | S fuel' =>
      entry ← stacks !! s;
      frame ← frames !! frameIndex entry;
      match parentStackIndex entry with
      | None => Some [funcIndex frame]
      | Some parentStack =>
          above ← stackFuncPathFuel fuel' stacks frames parentStack;
          Some (above ++ [funcIndex frame])
      end
  end.

Definition stackFuncPath (stacks : list Stack) (frames : list Frame)
    (s : IndexIntoStackTable) : option CallNodePath :=
  stackFuncPathFuel (length stacks) stacks frames s.

Fixpoint pathOfFuel (fuel : nat) (table : list CallNode)
    (n : IndexIntoCallNodeTable) : CallNodePath :=
  match fuel with
  | 0 => []
  | S fuel' =>
      match table !! n with
      | None => []
      | Some node =>
          match parentCallNodeIndex node with
          | None => [callNodeFunc node]
          | Some parent => pathOfFuel fuel' table parent ++ [callNodeFunc node]
          end
      end
  end.

(** Modelled from the spec: [profile-logic/profile-data] is not part of the
    sources at hand. The call-node path of a node is the sequence of function
    identities from the root to the node. *)
Definition pathOf (table : list CallNode) (n : IndexIntoCallNodeTable) : CallNodePath :=
  pathOfFuel (length table) table n.

Definition isChildKeyed (parent : option IndexIntoCallNodeTable)
    (func : IndexIntoFuncTable) (node : CallNode) : Prop :=
  parentCallNodeIndex node = parent ∧ callNodeFunc node = func.

#[global] Instance isChildKeyed_dec parent func node :
  Decision (isChildKeyed parent func node).
Proof. unfold isChildKeyed. apply _. Defined.

Definition findChild (table : list CallNode) (parent : option IndexIntoCallNodeTable)
    (func : IndexIntoFuncTable) : option IndexIntoCallNodeTable :=
  fst <$> list_find (isChildKeyed parent func) table.

Fixpoint descend (table : list CallNode) (current : option IndexIntoCallNodeTable)
    (path : CallNodePath) : option (option IndexIntoCallNodeTable) :=
  match path with
  | [] => Some current
  | func :: rest =>
      child ← findChild table current func;
      descend table (Some child) rest
  end.

(** Modelled from the spec: [profile-logic/profile-data] is not part of the
    sources at hand. The resolver descends from the synthetic root, at each
    step selecting the child keyed by the next function identity; the result
    is [null] as soon as a step finds no such child (and for the empty path,
    which names the synthetic root and no call node). *)
Definition getCallNodeIndexFromPath (callNodePath : CallNodePath)
    (table : list CallNode) : option IndexIntoCallNodeTable :=
  match descend table None callNodePath with
  | Some (Some n) => Some n
  | _ => None
  end.

(** Modelled from the spec: [profile-logic/profile-data] is not part of the
    sources at hand. The call node of a sample is the call node of its stack;
    it is undefined for a sample with no stack (or a stack with no mapping). *)
Definition getSampleIndexToCallNodeIndex (stacks : list (option IndexIntoStackTable))
    (mapping : list (option IndexIntoCallNodeTable))
    : list (option IndexIntoCallNodeTable) :=
  (fun s : option IndexIntoStackTable =>
     i ← s; c ← mapping !! i; c) <$> stacks.

End ProfileData.

(** ** The selectors of [getStackAndSampleSelectorsPerThread]

    The allocation view transforms and the sample classifier live in
    [profile-logic/profile-data], which is not part of the sources at hand; the
    selectors that call them take them as parameters. *)

Definition jsTruthy (flag : option bool) : bool := default false flag.

Section StackAndSampleSelectorsPerThread.

Variable filterToRetainedAllocations : NativeAllocationsTable -> Result NativeAllocationsTable.
Variable filterToAllocations : NativeAllocationsTable -> Result NativeAllocationsTable.
Variable filterToDeallocationsSites : NativeAllocationsTable -> Result NativeAllocationsTable.
Variable filterToDeallocationsMemory : NativeAllocationsTable -> Result NativeAllocationsTable.
Variable getSamplesSelectedStates :
  list CallNode -> list (option IndexIntoCallNodeTable) ->
  list (option IndexIntoCallNodeTable) -> option IndexIntoCallNodeTable ->
  Result (list SelectedState).

(** An index past the end of a JavaScript array reads [undefined], which is
    not a number in the arithmetic that follows. *)
Definition readNumber (numbers : list float) (i : nat) : float :=
  nth i numbers nan.

Definition unfilteredSamplesRange : Selector (option StartEndRange) :=
  createSelector2
    threadSelectors.getThread
    ProfileSelectors.getProfileInterval
    (fun thread interval =>
       let time := time (samples thread) in
       if Nat.eqb (length time) 0 then Ok None
       else Ok (Some {| rangeStart := readNumber time 0;
                        rangeEnd := (readNumber time (length time - 1) + interval)%float |})).

Definition getCallNodeInfo : Selector CallNodeInfo :=
  createSelector2
    threadSelectors.getFilteredThread
    ProfileSelectors.getDefaultCategory
    (fun thread defaultCategory =>
       Ok (ProfileData.getCallNodeInfo
             (stackTable thread) (frameTable thread) (funcTable thread)
             defaultCategory)).

Definition getSelectedCallNodePath : Selector CallNodePath :=
  createSelector1
    threadSelectors.getViewOptions
    (fun threadViewOptions => Ok (selectedCallNodePath threadViewOptions)).

Definition getSelectedCallNodeIndex : Selector (option IndexIntoCallNodeTable) :=
  createSelector2
    getCallNodeInfo
    getSelectedCallNodePath
    (fun callNodeInfo callNodePath =>
       Ok (ProfileData.getCallNodeIndexFromPath callNodePath
             (callNodeTable callNodeInfo))).

Definition getRightClickedCallNodePath : Selector (option CallNodePath) :=
  fun state =>
    threadViewOptions ← threadSelectors.getViewOptions state;
    Ok (rightClickedCallNodePath threadViewOptions).

(** The result function of [getRightClickedCallNodeIndex], over the path
    lookup it calls. *)
Definition rightClickedCallNodeIndexWith
    (lookup : CallNodePath -> list CallNode -> Result (option IndexIntoCallNodeTable))
    (callNodeInfo : CallNodeInfo) (callNodePath : option CallNodePath)
    : Result (option IndexIntoCallNodeTable) :=
  match callNodePath with
  | None => Ok None
  | Some path => lookup path (callNodeTable callNodeInfo)
  end.

Definition getRightClickedCallNodeIndex : Selector (option IndexIntoCallNodeTable) :=
  createSelector2
    getCallNodeInfo
    getRightClickedCallNodePath
    (rightClickedCallNodeIndexWith
       (fun path table => Ok (ProfileData.getCallNodeIndexFromPath path table))).

Definition getSamplesSelectedStatesInFilteredThread
    : Selector (option (list SelectedState)) :=
  createSelector4
    threadSelectors.getFilteredThread
    threadSelectors.getTabFilteredThread
    getCallNodeInfo
    getSelectedCallNodeIndex
    (fun thread tabFilteredThread callNodeInfo selectedCallNode =>
       if jsTruthy (isJsTracer thread) then
         (* This is currently to slow to compute in JS Tracer threads. *)
         Ok None
       else
         let sampleIndexToCallNodeIndex :=
           ProfileData.getSampleIndexToCallNodeIndex
             (stack (samples thread)) (stackIndexToCallNodeIndex callNodeInfo) in
         let activeTabFilteredCallNodeIndex :=
           ProfileData.getSampleIndexToCallNodeIndex
             (stack (samples tabFilteredThread))
             (stackIndexToCallNodeIndex callNodeInfo) in
         states ← getSamplesSelectedStates (callNodeTable callNodeInfo)
                    sampleIndexToCallNodeIndex activeTabFilteredCallNodeIndex
                    selectedCallNode;
         Ok (Some states)).

(** The [switch] of [getCallTreeSummaryStrategy]: [Some s] is [return s],
    [None] is [break]. *)
Definition summaryStrategySwitch (thread : Thread)
    (lastSelectedCallTreeSummaryStrategy : CallTreeSummaryStrategy)
    : Result (option CallTreeSummaryStrategy) :=
  let s := lastSelectedCallTreeSummaryStrategy in
  if String.eqb s "timing" then
    (* Timing is valid everywhere. *)
    Ok None
  else if String.eqb s "js-allocations" then
    match jsAllocations thread with
    | None => Ok (Some "timing")
    | Some _ => Ok None
    end
  else if String.eqb s "native-allocations"
       || String.eqb s "native-retained-allocations"
       || String.eqb s "native-deallocations-sites"
       || String.eqb s "native-deallocations-memory" then
    match nativeAllocations thread with
    | None => Ok (Some "timing")
    | Some _ => Ok None
    end
  else
    Flow.assertExhaustiveCheck s (Some "Unhandled call tree sumary strategy.").

Definition getCallTreeSummaryStrategy : Selector CallTreeSummaryStrategy :=
  createSelector2
    threadSelectors.getThread
    UrlState.getLastSelectedCallTreeSummaryStrategy
    (fun thread lastSelectedCallTreeSummaryStrategy =>
       returned ← summaryStrategySwitch thread lastSelectedCallTreeSummaryStrategy;
       match returned with
       | Some strategy => Ok strategy
       | None => Ok lastSelectedCallTreeSummaryStrategy
       end).

Definition missingMemoryAddresses : string :=
  "Attempting to filter by retained allocations data that is missing the memory addresses.".

(** The messages of [ensureExists] are those of the source, without the
    quotation marks around the strategy names. *)
Definition getSamplesForCallTree : Selector SamplesLikeTable :=
  createSelector2
    threadSelectors.getPreviewFilteredThread
    getCallTreeSummaryStrategy
    (fun thread strategy =>
       if String.eqb strategy "timing" then
         Ok (OfSamples (samples thread))
       else if String.eqb strategy "js-allocations" then
         OfJsAllocations <$>
           Flow.ensureExists (jsAllocations thread)
             "Expected the NativeAllocationTable to exist when using a js-allocation strategy"
       else if String.eqb strategy "native-retained-allocations" then
         nativeAllocations ←
           Flow.ensureExists (nativeAllocations thread)
             "Expected the NativeAllocationTable to exist when using a native-allocation strategy";
         match memoryAddress nativeAllocations with
         | None => Throw missingMemoryAddresses
         | Some _ =>
             OfNativeAllocations <$> filterToRetainedAllocations nativeAllocations
         end
       else if String.eqb strategy "native-allocations" then
         nativeAllocations ←
           Flow.ensureExists (nativeAllocations thread)
             "Expected the NativeAllocationTable to exist when using a native-allocations strategy";
         OfNativeAllocations <$> filterToAllocations nativeAllocations
       else if String.eqb strategy "native-deallocations-sites" then
         nativeAllocations ←
           Flow.ensureExists (nativeAllocations thread)
             "Expected the NativeAllocationTable to exist when using a native-deallocations-sites strategy";
         OfNativeAllocations <$> filterToDeallocationsSites nativeAllocations
       else if String.eqb strategy "native-deallocations-memory" then
         nativeAllocations ←
           Flow.ensureExists (nativeAllocations thread)
             "Expected the NativeAllocationTable to exist when using a native-deallocations-memory strategy";
         match memoryAddress nativeAllocations with
         | None => Throw missingMemoryAddresses
         | Some _ =>
             checked ←
               Flow.ensureExists (Some nativeAllocations)
                 "Expected the NativeAllocationTable to exist when using a js-allocation strategy";
             OfNativeAllocations <$> filterToDeallocationsMemory checked
         end
       else
         Flow.assertExhaustiveCheck strategy None).

End StackAndSampleSelectorsPerThread.

(** ** The selectors that hand their inputs to other modules

    The call tree, the stack timing and the flame graph are computed by
    [profile-logic/call-tree], [profile-logic/stack-timing] and
    [profile-logic/flame-graph]; these selectors take the functions they call,
    and the two selectors of the categories and of the implementation filter,
    as parameters. *)

Definition createSelector3 {A B C R : Type} (s1 : Selector A) (s2 : Selector B)
    (s3 : Selector C) (resultFunc : A -> B -> C -> Result R) : Selector R :=
  fun state => a ← s1 state; b ← s2 state; c ← s3 state; resultFunc a b c.

Definition createSelector7 {A B C D E F G R : Type} (s1 : Selector A)
    (s2 : Selector B) (s3 : Selector C) (s4 : Selector D) (s5 : Selector E)
    (s6 : Selector F) (s7 : Selector G)
    (resultFunc : A -> B -> C -> D -> E -> F -> G -> Result R) : Selector R :=
  fun state =>
    a ← s1 state; b ← s2 state; c ← s3 state; d ← s4 state; e ← s5 state;
    f ← s6 state; g ← s7 state; resultFunc a b c d e f g.

Section DelegatingSelectors.

Variable filterToRetainedAllocations : NativeAllocationsTable -> Result NativeAllocationsTable.
Variable filterToAllocations : NativeAllocationsTable -> Result NativeAllocationsTable.
Variable filterToDeallocationsSites : NativeAllocationsTable -> Result NativeAllocationsTable.
Variable filterToDeallocationsMemory : NativeAllocationsTable -> Result NativeAllocationsTable.

Context {CategoryList ImplementationFilter : Type}.
Context {CountsAndTimings CallTreeOfThread StackTimingByDepth FlameGraphTiming : Type}.

Variable getCategories : State -> CategoryList.
Variable getImplementationFilter : State -> ImplementationFilter.

Variable computeCallNodeMaxDepth : Thread -> CallNodeInfo -> Result nat.
Variable computeCallTreeCountsAndTimings :
  SamplesLikeTable -> CallNodeInfo -> Milliseconds -> bool -> Result CountsAndTimings.
Variable callTreeOf :
  Thread -> Milliseconds -> CallNodeInfo -> CategoryList -> ImplementationFilter ->
  CountsAndTimings -> CallTreeSummaryStrategy -> Result CallTreeOfThread.
Variable stackTimingByDepthOf :
  Thread -> CallNodeInfo -> nat -> Milliseconds -> Result StackTimingByDepth.
Variable flameGraphTimingOf :
  Thread -> CallNodeInfo -> CountsAndTimings -> Result FlameGraphTiming.

Definition getCallNodeMaxDepth : Selector nat :=
  createSelector2
    threadSelectors.getFilteredThread
    getCallNodeInfo
    computeCallNodeMaxDepth.

Definition getCallTreeCountsAndTimings : Selector CountsAndTimings :=
  createSelector4
    (getSamplesForCallTree filterToRetainedAllocations filterToAllocations
       filterToDeallocationsSites filterToDeallocationsMemory)
    getCallNodeInfo
    ProfileSelectors.getProfileInterval
    UrlState.getInvertCallstack
    computeCallTreeCountsAndTimings.

Definition getCallTree : Selector CallTreeOfThread :=
  createSelector7
    threadSelectors.getPreviewFilteredThread
    ProfileSelectors.getProfileInterval
    getCallNodeInfo
    (fun state => Ok (getCategories state))
    (fun state => Ok (getImplementationFilter state))
    getCallTreeCountsAndTimings
    getCallTreeSummaryStrategy
    callTreeOf.

Definition getStackTimingByDepth : Selector StackTimingByDepth :=
  createSelector4
    threadSelectors.getFilteredThread
    getCallNodeInfo
    getCallNodeMaxDepth
    ProfileSelectors.getProfileInterval
    stackTimingByDepthOf.

Definition getFlameGraphTiming : Selector FlameGraphTiming :=
  createSelector3
    threadSelectors.getPreviewFilteredThread
    getCallNodeInfo
    getCallTreeCountsAndTimings
    flameGraphTimingOf.

End DelegatingSelectors.

(** ** profile-logic/call-tree *)

Module CallTree.

(** A row of the stream the call tree summarizes: a timing sample (no weight
    of its own, it counts for one sampling interval) or an allocation event
    (its byte weight). Weights are exact integers. *)
Record Row := {
  rowStack : option IndexIntoStackTable;
  rowWeight : option Z
}.

Record CallNodeTotals := {
  selfCount : nat;
  selfWeight : Z;
  totalCount : nat;
  totalWeight : Z
}.

Definition noTotals : CallNodeTotals :=
  {| selfCount := 0; selfWeight := 0; totalCount := 0; totalWeight := 0 |}.

(** The aggregate, per call node of the tree it is over (the table of the
    call-node info, or the re-rooted one of an inverted tree). *)
Record CallTreeCountsAndTimings := {
  treeCallNodes : list CallNode;
  treeTotals : list CallNodeTotals
}.

Definition weightOf (interval : Z) (row : Row) : Z :=
  default interval (rowWeight row).

(** The call node a row resolves to: its stack has a mapping, to a node of
    the table. *)
Definition rowCallNode (info : CallNodeInfo) (row : Row)
    : option IndexIntoCallNodeTable :=
  s ← rowStack row;
  mapped ← stackIndexToCallNodeIndex info !! s;
  c ← mapped;
  _ ← callNodeTable info !! c;
  Some c.

Definition addSelf (w : Z) (t : CallNodeTotals) : CallNodeTotals :=
  {| selfCount := S (selfCount t); selfWeight := selfWeight t + w;
     totalCount := totalCount t; totalWeight := totalWeight t |}.

Definition addTotal (w : Z) (t : CallNodeTotals) : CallNodeTotals :=
  {| selfCount := selfCount t; selfWeight := selfWeight t;
     totalCount := S (totalCount t); totalWeight := totalWeight t + w |}.

(** Add a weight to the total of a node and of every ancestor up to the
    root. *)
Fixpoint addTotalUp (fuel : nat) (table : list CallNode) (w : Z)
    (n : IndexIntoCallNodeTable) (totals : list CallNodeTotals)
    : list CallNodeTotals :=
  match fuel with
  | 0 => totals
  | S fuel' =>
      match table !! n with
      | None => totals
      | Some node =>
          let totals' := alter (addTotal w) n totals in
          match parentCallNodeIndex node with
          | None => totals'
          | Some parent => addTotalUp fuel' table w parent totals'
          end
      end
  end.

(** What one row contributes: its weight as self of one node, and as total of
    a node and of its ancestors. *)
Record Attribution := {
  selfNode : IndexIntoCallNodeTable;
  totalNode : IndexIntoCallNodeTable;
  weight : Z
}.

Definition attribute (table : list CallNode) (totals : list CallNodeTotals)
    (a : Attribution) : list CallNodeTotals :=
  addTotalUp (length table) table (weight a) (totalNode a)
    (alter (addSelf (weight a)) (selfNode a) totals).

Definition aggregate (table : list CallNode) (attributions : list Attribution)
    : CallTreeCountsAndTimings :=
  {| treeCallNodes := table;
     treeTotals :=
       foldl (attribute table) (replicate (length table) noTotals) attributions |}.

Definition directAttribution (info : CallNodeInfo) (interval : Z) (row : Row)
    : option Attribution :=
  n ← rowCallNode info row;
  Some {| selfNode := n; totalNode := n; weight := weightOf interval row |}.

(** The nodes from a call node up to its root, the node itself first. *)
Fixpoint chainFuel (fuel : nat) (table : list CallNode)
    (n : IndexIntoCallNodeTable) : list CallNode :=
  match fuel with
  | 0 => []
  | S fuel' =>
      match table !! n with
      | None => []
      | Some node =>
          node :: match parentCallNodeIndex node with
                  | None => []
                  | Some parent => chainFuel fuel' table parent
                  end
      end
  end.

(** Find or add, under [current], the nodes of an inverted path; the result
    lists the nodes visited, the new root first. *)
Fixpoint insertChain (nodes : list CallNode) (current : option IndexIntoCallNodeTable)
    (chain : list CallNode) : list CallNode * list IndexIntoCallNodeTable :=
  match chain with
  | [] => (nodes, [])
  | original :: rest =>
      match ProfileData.findChild nodes current (callNodeFunc original) with
      | Some child =>
          let '(nodes', visited) := insertChain nodes (Some child) rest in
          (nodes', child :: visited)
      | None =>
          let child := length nodes in
          let added :=
            {| parentCallNodeIndex := current;
               callNodeFunc := callNodeFunc original;
               callNodeCategory := callNodeCategory original;
               depth := ProfileData.depthUnder nodes current |} in
          let '(nodes', visited) := insertChain (nodes ++ [added]) (Some child) rest in
          (nodes', child :: visited)
      end
  end.

(** Leaf-to-root re-rooting of one row: the row's call node becomes the new
    root, its ancestors the new leaves. *)
Definition reRootRow (info : CallNodeInfo) (interval : Z)
    (acc : list CallNode * list Attribution) (row : Row)
    : list CallNode * list Attribution :=
  match rowCallNode info row with
  | None => acc
  | Some n =>
      let table := callNodeTable info in
      let '(nodes', visited) :=
        insertChain acc.1 None (chainFuel (length table) table n) in
      match head visited, last visited with
      | Some newRoot, Some newLeaf =>
          (nodes', acc.2 ++ [ {| selfNode := newRoot; totalNode := newLeaf;
                                 weight := weightOf interval row |} ])
      | _, _ => (nodes', acc.2)
      end
  end.

(** Modelled from the spec: [profile-logic/call-tree] is not part of the
    sources at hand. For each row with a resolvable call node, the aggregator
    attributes its weight to that node as self, and to every ancestor up to
    the root as total; rows with no resolvable call node are ignored. When
    inverted, the row's call node is the new root and its ancestors are the
    new leaves. *)
Definition computeCallTreeCountsAndTimings (rows : list Row) (info : CallNodeInfo)
    (interval : Z) (invertCallstack : bool) : CallTreeCountsAndTimings :=
  if invertCallstack then
    let '(nodes, attributions) := foldl (reRootRow info interval) ([], []) rows in
    aggregate nodes attributions
  else
    aggregate (callNodeTable info) (omap (directAttribution info interval) rows).

Definition sumZ (l : list Z) : Z := foldr Z.add 0%Z l.

Definition rootTotalWeight (entry : CallNode * CallNodeTotals) : Z :=
  match parentCallNodeIndex entry.1 with
  | None => totalWeight entry.2
  | Some _ => 0
  end.

(** The sum over the root call nodes of their total weight. *)
Definition sumRootTotalWeights (tree : CallTreeCountsAndTimings) : Z :=
  sumZ (rootTotalWeight <$> zip (treeCallNodes tree) (treeTotals tree)).

(** The sum of the weights of the rows whose stack resolves to a known call
    node. *)
Definition sumResolvedWeights (rows : list Row) (info : CallNodeInfo)
    (interval : Z) : Z :=
  sumZ ((fun row => match rowCallNode info row with
                    | Some _ => weightOf interval row
                    | None => 0%Z
                    end) <$> rows).

End CallTree.

(** ** The derivation graph: what [createSelector] caches

    Values are published under references; a node compares the references of
    its upstream values with those of its last computation. *)

Module DerivationGraph.

Abbreviation Ref := nat (only parsing).

Record Node (Out : Type) := {
  cached : option (list Ref * Ref);
  outputs : list Out;
  recomputations : nat
}.
Arguments cached {Out} n.
Arguments outputs {Out} n.
Arguments recomputations {Out} n.

Definition emptyNode {Out : Type} : Node Out :=
  {| cached := None; outputs := []; recomputations := 0 |}.

Section Node.
Context {Out : Type}.
Variable resultFunc : list Ref -> Result Out.

(** Run the wrapped function; on success publish the output under a fresh
    reference and record the inputs, on failure keep the previous cache and
    let the failure through. *)
Definition recompute (upstream : list Ref) (node : Node Out)
    : Result Ref * Node Out :=
  match resultFunc upstream with
  | Ok value =>
      let ref := length (outputs node) in
      (Ok ref,
       {| cached := Some (upstream, ref);
          outputs := outputs node ++ [value];
          recomputations := S (recomputations node) |})
  | Throw message =>
      (Throw message,
       {| cached := cached node;
          outputs := outputs node;
          recomputations := S (recomputations node) |})
  end.

(** Modelled from the spec: [reselect] is not part of the sources at hand.
    On evaluation a node compares each upstream's current value against the
    value used in the last computation, by identity; if all match it
    returns the cached output unchanged, otherwise it recomputes and
    replaces the cache and the recorded inputs. *)
Definition read (upstream : list Ref) (node : Node Out)
    : Result Ref * Node Out :=
  match cached node with
  | Some (recorded, output) =>
      if decide (recorded = upstream) then (Ok output, node)
      else recompute upstream node
  | None => recompute upstream node
  end.

End Node.

Definition valueOf {Out : Type} (node : Node Out) (ref : Ref) : option Out :=
  outputs node !! ref.

End DerivationGraph.

(** ** Vocabulary of the statements *)

(** The four strategies that summarize native allocation events. *)
Definition isNativeAllocationStrategy (s : CallTreeSummaryStrategy) : Prop :=
  s = "native-allocations" \/ s = "native-retained-allocations" \/
  s = "native-deallocations-sites" \/ s = "native-deallocations-memory".

(** The invariants of a call-node table: the parent of a node comes before the
    node, and no two nodes share their parent and function. *)
Definition parentsPrecede (table : list CallNode) : Prop :=
  forall n node parent,
    table !! n = Some node -> parentCallNodeIndex node = Some parent -> parent < n.

Definition keysUnique (table : list CallNode) : Prop :=
  forall i j a b,
    table !! i = Some a -> table !! j = Some b ->
    parentCallNodeIndex a = parentCallNodeIndex b -> callNodeFunc a = callNodeFunc b ->
    i = j.

(** The guarantee of the stack table: parents appear before children. *)
Definition stackParentsPrecede (stacks : list Stack) : Prop :=
  forall s entry parent,
    stacks !! s = Some entry -> parentStackIndex entry = Some parent -> parent < s.

(** [Reaches table start path n]: descending from [start] (the synthetic root
    when [None]) along the functions of [path], through children keyed by them,
    ends at node [n]. *)
Inductive Reaches (table : list CallNode)
    : option IndexIntoCallNodeTable -> CallNodePath -> IndexIntoCallNodeTable -> Prop :=
| reaches_child start func child node :
    table !! child = Some node ->
    ProfileData.isChildKeyed start func node ->
    Reaches table start [func] child
| reaches_step start func child node rest n :
    table !! child = Some node ->
    ProfileData.isChildKeyed start func node ->
    Reaches table (Some child) rest n ->
    Reaches table start (func :: rest) n.

(** The path that leads to a position of the descent: empty at the synthetic
    root. *)
Definition pathTo (table : list CallNode) (position : option IndexIntoCallNodeTable)
    : CallNodePath :=
  match position with
  | None => []
  | Some n => ProfileData.pathOf table n
  end.

(** What the builder maintains, whatever the stacks: its nodes form a call-node
    table, its map finds exactly the nodes by their key, and the stacks are
    mapped to nodes of the table. *)
Record TableInvariant (b : ProfileData.CallNodeBuilder) : Prop := {
  inv_parents : parentsPrecede (ProfileData.builtCallNodes b);
  inv_keys : forall parent func c,
    ProfileData.callNodeByParentAndFunc b !! (parent, func) = Some c <->
    exists node, ProfileData.builtCallNodes b !! c = Some node /\
                 ProfileData.isChildKeyed parent func node;
  inv_range : forall s c,
    ProfileData.builtStackIndexToCallNodeIndex b !! s = Some (Some c) ->
    c < length (ProfileData.builtCallNodes b)
}.

(** What the walk has established after [processed] stacks in order: a mapped
    stack has the path of its call node, and every stack with a path is
    mapped. *)
Record PathInvariant (stacks : list Stack) (frames : list Frame)
    (processed : nat) (b : ProfileData.CallNodeBuilder) : Prop := {
  inv_length : length (ProfileData.builtStackIndexToCallNodeIndex b) = processed;
  inv_mapped : forall s c,
    ProfileData.builtStackIndexToCallNodeIndex b !! s = Some (Some c) ->
    ProfileData.stackFuncPath stacks frames s =
    Some (ProfileData.pathOf (ProfileData.builtCallNodes b) c);
  inv_total : forall s,
    s < processed -> is_Some (ProfileData.stackFuncPath stacks frames s) ->
    exists c, ProfileData.builtStackIndexToCallNodeIndex b !! s = Some (Some c)
}.


(** The cached reference of a node names one of the outputs it published. *)
Definition cacheInRange {Out : Type} (node : DerivationGraph.Node Out) : Prop :=
  forall recorded output,
    DerivationGraph.cached node = Some (recorded, output) ->
    output < length (DerivationGraph.outputs node).

(** The cache of a node is not stale: what it holds is what the wrapped function
    returns for the recorded inputs. *)
Definition cacheSound {Out : Type} (resultFunc : list nat -> Result Out)
    (node : DerivationGraph.Node Out) : Prop :=
  forall recorded output,
    DerivationGraph.cached node = Some (recorded, output) ->
    exists value,
      DerivationGraph.valueOf node output = Some value /\ resultFunc recorded = Ok value.

(** The depth of every node is one more than that of its parent, and zero at
    a root. *)
Definition depthsFollowParents (table : list CallNode) : Prop :=
  forall n node,
    table !! n = Some node ->
    depth node = ProfileData.depthUnder table (parentCallNodeIndex node).

(** Every call node of the builder is the call node of a stack. *)
Definition nodesCovered (b : ProfileData.CallNodeBuilder) : Prop :=
  forall c, c < length (ProfileData.builtCallNodes b) ->
    exists s, ProfileData.builtStackIndexToCallNodeIndex b !! s = Some (Some c).

(** The node after a sequence of reads, each with its upstream references. *)
Definition readAll {Out : Type} (resultFunc : list nat -> Result Out)
    (requests : list (list nat)) (node : DerivationGraph.Node Out)
    : DerivationGraph.Node Out :=
  foldl (fun n upstream => (DerivationGraph.read resultFunc upstream n).2) node requests.

(** The rows that resolve to a call node. *)
Definition resolvedRows (info : CallNodeInfo) (rows : list CallTree.Row)
    : list CallTree.Row :=
  filter (fun row => is_Some (CallTree.rowCallNode info row)) rows.

(** ** A small thread

    Functions A, B and C are 0, 1 and 2; B is sampled through two frames. The
    stacks are A, A→B, A→B (through the other frame of B) and A→C. *)

Definition scenarioFuncs : list Func :=
  [ {| funcName := "A"; funcOrigin := "app.js" |};
    {| funcName := "B"; funcOrigin := "app.js" |};
    {| funcName := "C"; funcOrigin := "lib.js" |} ].

Definition scenarioFrames : list Frame :=
  [ {| funcIndex := 0; categoryIndex := 0 |};
    {| funcIndex := 1; categoryIndex := 0 |};
    {| funcIndex := 2; categoryIndex := 0 |};
    {| funcIndex := 1; categoryIndex := 1 |} ].

Definition scenarioStacks : list Stack :=
  [ {| frameIndex := 0; parentStackIndex := None |};
    {| frameIndex := 1; parentStackIndex := Some 0 |};
    {| frameIndex := 3; parentStackIndex := Some 0 |};
    {| frameIndex := 2; parentStackIndex := Some 0 |} ].

Definition scenarioNativeAllocations : NativeAllocationsTable :=
  {| nativeAllocationsTime := [0%float; 1%float];
     nativeAllocationsWeight := [64%Z; (-64)%Z];
     nativeAllocationsStack := [Some 1; Some 3];
     memoryAddress := None |}.

Definition scenarioThread : Thread :=
  {| samples := {| stack := [Some 1; Some 2; Some 3]; time := [0%float; 1%float; 2%float] |};
     jsAllocations := None;
     nativeAllocations := Some scenarioNativeAllocations;
     stackTable := scenarioStacks;
     frameTable := scenarioFrames;
     funcTable := scenarioFuncs;
     isJsTracer := None |}.

Definition scenarioTracerThread : Thread :=
  {| samples := samples scenarioThread;
     jsAllocations := None;
     nativeAllocations := None;
     stackTable := scenarioStacks;
     frameTable := scenarioFrames;
     funcTable := scenarioFuncs;
     isJsTracer := Some true |}.

Definition scenarioState (thread : Thread) (selected : CallNodePath)
    (lastSelected : CallTreeSummaryStrategy) : State :=
  {| stateThread := thread;
     stateFilteredThread := thread;
     statePreviewFilteredThread := thread;
     stateTabFilteredThread := thread;
     stateViewOptions :=
       {| selectedCallNodePath := selected;
          rightClickedCallNodePath := None;
          expandedCallNodePaths := [] |};
     stateProfileInterval := 1%float;
     stateDefaultCategory := 0;
     stateLastSelectedCallTreeSummaryStrategy := lastSelected;
     stateInvertCallstack := false |}.

Definition scenarioCallNodeInfo : CallNodeInfo :=
  ProfileData.getCallNodeInfo scenarioStacks scenarioFrames scenarioFuncs 0.

(** Three timing samples, an allocation of 64 bytes, a row without a stack and
    a row whose stack is not in the table. *)
Definition scenarioRows : list CallTree.Row :=
  [ {| CallTree.rowStack := Some 1; CallTree.rowWeight := None |};
    {| CallTree.rowStack := Some 2; CallTree.rowWeight := None |};
    {| CallTree.rowStack := Some 3; CallTree.rowWeight := None |};
    {| CallTree.rowStack := Some 3; CallTree.rowWeight := Some 64%Z |};
    {| CallTree.rowStack := None; CallTree.rowWeight := None |};
    {| CallTree.rowStack := Some 9; CallTree.rowWeight := None |} ].

(** The small thread with a JS allocations table, and its variant that the
    filters left without one. *)
Definition scenarioJsAllocations : JsAllocationsTable :=
  {| jsAllocationsTime := [0%float];
     jsAllocationsWeight := [32%Z];
     jsAllocationsStack := [Some 1] |}.

Definition scenarioJsThread : Thread :=
  {| samples := samples scenarioThread;
     jsAllocations := Some scenarioJsAllocations;
     nativeAllocations := Some scenarioNativeAllocations;
     stackTable := scenarioStacks;
     frameTable := scenarioFrames;
     funcTable := scenarioFuncs;
     isJsTracer := Some false |}.

Definition scenarioFilteredState (lastSelected : CallTreeSummaryStrategy) : State :=
  {| stateThread := scenarioJsThread;
     stateFilteredThread := scenarioJsThread;
     statePreviewFilteredThread := scenarioTracerThread;
     stateTabFilteredThread := scenarioJsThread;
     stateViewOptions :=
       {| selectedCallNodePath := [0; 2];
          rightClickedCallNodePath := Some [0; 2];
          expandedCallNodePaths := [[0]] |};
     stateProfileInterval := 1%float;
     stateDefaultCategory := 0;
     stateLastSelectedCallTreeSummaryStrategy := lastSelected;
     stateInvertCallstack := false |}.

(** * Properties of the selectors *)

(** ** The summary strategy *)

Lemma summaryStrategySwitch_timing thread :
  summaryStrategySwitch thread "timing" = Ok None.
Proof. reflexivity. Qed.

Lemma summaryStrategySwitch_js thread :
  summaryStrategySwitch thread "js-allocations" =
  Ok (match jsAllocations thread with None => Some "timing" | Some _ => None end).
Proof. unfold summaryStrategySwitch. simpl. by destruct (jsAllocations thread). Qed.

Lemma summaryStrategySwitch_native thread s :
  isNativeAllocationStrategy s ->
  summaryStrategySwitch thread s =
  Ok (match nativeAllocations thread with None => Some "timing" | Some _ => None end).
Proof.
  intros [-> | [-> | [-> | ->]]]; unfold summaryStrategySwitch; simpl;
    by destruct (nativeAllocations thread).
Qed.

(** C1: the effective strategy is the last chosen one when that is timing, or
    JS allocations on a thread that has a JS allocations table, or one of the
    four native allocation strategies on a thread that has a native allocations
    table; for the other recognized choices it is timing. *)
Theorem getCallTreeSummaryStrategy_effective (state : State) :
  let thread := stateThread state in
  let lastSelected := stateLastSelectedCallTreeSummaryStrategy state in
  (lastSelected = "timing"
   \/ (lastSelected = "js-allocations" /\ is_Some (jsAllocations thread))
   \/ (isNativeAllocationStrategy lastSelected /\ is_Some (nativeAllocations thread))
   -> getCallTreeSummaryStrategy state = Ok lastSelected)
  /\
  ((lastSelected = "js-allocations" /\ jsAllocations thread = None)
   \/ (isNativeAllocationStrategy lastSelected /\ nativeAllocations thread = None)
   -> getCallTreeSummaryStrategy state = Ok "timing").
Proof.
  cbv zeta. unfold getCallTreeSummaryStrategy, createSelector2,
    threadSelectors.getThread, UrlState.getLastSelectedCallTreeSummaryStrategy.
  simpl. split.
  - intros [Ht | [[Hj [t Hs]] | [Hn [t Hs]]]].
    + rewrite Ht. by rewrite summaryStrategySwitch_timing.
    + rewrite Hj. rewrite summaryStrategySwitch_js, Hs. done.
    + rewrite (summaryStrategySwitch_native _ _ Hn), Hs. done.
  - intros [[Hj Hs] | [Hn Hs]].
    + rewrite Hj. rewrite summaryStrategySwitch_js, Hs. done.
    + rewrite (summaryStrategySwitch_native _ _ Hn), Hs. done.
Qed.

(** A strategy outside of the six is a programming error, not a fallback. *)
Lemma getCallTreeSummaryStrategy_unrecognized (state : State) :
  let lastSelected := stateLastSelectedCallTreeSummaryStrategy state in
  lastSelected <> "timing" -> lastSelected <> "js-allocations" ->
  ~ isNativeAllocationStrategy lastSelected ->
  getCallTreeSummaryStrategy state = Throw "Unhandled call tree sumary strategy.".
Proof.
  cbv zeta. intros Ht Hj Hn.
  unfold getCallTreeSummaryStrategy, createSelector2,
    threadSelectors.getThread, UrlState.getLastSelectedCallTreeSummaryStrategy.
  simpl. unfold summaryStrategySwitch.
  apply String.eqb_neq in Ht as ->. apply String.eqb_neq in Hj as ->.
  unfold isNativeAllocationStrategy in Hn.
  repeat match goal with
  | |- context [String.eqb ?a ?b] =>
      destruct (String.eqb_spec a b); [ exfalso; apply Hn; tauto | ]
  end.
  reflexivity.
Qed.

(** ** The sample stream of the call tree *)

(** C2: with a native allocation table that has no memory addresses, the
    retained-allocations and the deallocations-memory strategies make the
    selection of the sample stream throw, with a message that says what is
    missing. *)
Theorem getSamplesForCallTree_missing_memoryAddress
    (filterToRetainedAllocations filterToAllocations filterToDeallocationsSites
       filterToDeallocationsMemory : NativeAllocationsTable -> Result NativeAllocationsTable)
    (state : State) (table : NativeAllocationsTable) (strategy : CallTreeSummaryStrategy) :
  nativeAllocations (statePreviewFilteredThread state) = Some table ->
  memoryAddress table = None ->
  getCallTreeSummaryStrategy state = Ok strategy ->
  strategy = "native-retained-allocations" \/ strategy = "native-deallocations-memory" ->
  getSamplesForCallTree filterToRetainedAllocations filterToAllocations
    filterToDeallocationsSites filterToDeallocationsMemory state
  = Throw missingMemoryAddresses.
Proof.
  intros Htable Haddr Hstrategy Hcase.
  unfold getSamplesForCallTree, createSelector2, threadSelectors.getPreviewFilteredThread.
  simpl. rewrite Hstrategy. simpl.
  destruct Hcase as [-> | ->]; simpl; rewrite Htable; simpl; by rewrite Haddr.
Qed.

(** ** The selected states of the samples *)

(** C7: on a JS tracer thread the selected states are not computed: the
    selector returns [null], whatever the classifier would do and whatever the
    selection is. *)
Theorem getSamplesSelectedStatesInFilteredThread_jsTracer
    (getSamplesSelectedStates :
       list CallNode -> list (option IndexIntoCallNodeTable) ->
       list (option IndexIntoCallNodeTable) -> option IndexIntoCallNodeTable ->
       Result (list SelectedState))
    (state : State) :
  isJsTracer (stateFilteredThread state) = Some true ->
  getSamplesSelectedStatesInFilteredThread getSamplesSelectedStates state = Ok None.
Proof.
  intros Htracer.
  unfold getSamplesSelectedStatesInFilteredThread, createSelector4,
    threadSelectors.getFilteredThread, threadSelectors.getTabFilteredThread,
    getSelectedCallNodeIndex, getSelectedCallNodePath, getCallNodeInfo,
    createSelector2, createSelector1, threadSelectors.getViewOptions,
    threadSelectors.getFilteredThread, ProfileSelectors.getDefaultCategory.
  simpl. by rewrite Htracer.
Qed.

(** ** The range of the samples *)

Lemma readNumber_lookup (numbers : list float) (i : nat) (x : float) :
  numbers !! i = Some x -> readNumber numbers i = x.
Proof. intros H. unfold readNumber. by rewrite nth_lookup, H. Qed.

(** C9: the range of the unfiltered samples is [null] exactly when the thread
    has no sample time; otherwise it starts at the first sample time and ends
    one sampling interval after the last one. *)
Theorem unfilteredSamplesRange_spec (state : State) :
  let times := time (samples (stateThread state)) in
  (unfilteredSamplesRange state = Ok None <-> times = [])
  /\
  (forall first final : Milliseconds,
     head times = Some first -> last times = Some final ->
     unfilteredSamplesRange state =
     Ok (Some {| rangeStart := first;
                 rangeEnd := (final + stateProfileInterval state)%float |})).
Proof.
  cbv zeta.
  unfold unfilteredSamplesRange, createSelector2, threadSelectors.getThread,
    ProfileSelectors.getProfileInterval. simpl.
  destruct (time (samples (stateThread state))) as [|t0 rest] eqn:Htime.
  - split; [done | intros ? ? [=]].
  - split; [split; intros [=] |].
    intros first final Hfirst Hlast. simpl in Hfirst. injection Hfirst as ->.
    rewrite last_lookup in Hlast. simpl in Hlast.
    cbn [length Nat.eqb].
    replace (S (length rest) - 1) with (length rest) by lia.
    rewrite (readNumber_lookup _ _ _ Hlast).
    reflexivity.
Qed.

(** ** The right-clicked call node *)

(** C10: with no right-clicked path the index is [null], whatever the table
    holds and whatever the path lookup would do with it; a path that is there
    is handed to the lookup, whose answer is the result. *)
Theorem getRightClickedCallNodeIndex_null_path :
  (forall lookup (callNodeInfo : CallNodeInfo),
     rightClickedCallNodeIndexWith lookup callNodeInfo None = Ok None)
  /\
  (forall lookup (callNodeInfo : CallNodeInfo) (path : CallNodePath),
     rightClickedCallNodeIndexWith lookup callNodeInfo (Some path)
     = lookup path (callNodeTable callNodeInfo))
  /\
  (forall state : State,
     match rightClickedCallNodePath (stateViewOptions state) with
     | None => getRightClickedCallNodeIndex state = Ok None
     | Some path =>
         forall callNodeInfo, getCallNodeInfo state = Ok callNodeInfo ->
         getRightClickedCallNodeIndex state =
         Ok (ProfileData.getCallNodeIndexFromPath path (callNodeTable callNodeInfo))
     end).
Proof.
  split; [done | split; [done |]].
  intros state.
  unfold getRightClickedCallNodeIndex, createSelector2, getRightClickedCallNodePath,
    threadSelectors.getViewOptions, getCallNodeInfo, createSelector2,
    threadSelectors.getFilteredThread, ProfileSelectors.getDefaultCategory.
  simpl.
  destruct (rightClickedCallNodePath (stateViewOptions state)); [|done].
  by intros ? [= <-].
Qed.

(** ** The cache of a selector *)

Section NodeFacts.
Context {Out : Type}.
Variable resultFunc : list DerivationGraph.Ref -> Result Out.

Import DerivationGraph.


Lemma recompute_Ok upstream node ref node' :
  recompute resultFunc upstream node = (Ok ref, node') ->
  cached node' = Some (upstream, ref) /\ ref = length (outputs node)
  /\ recomputations node' = S (recomputations node).
Proof.
  unfold recompute. destruct (resultFunc upstream); intros [= <- <-]; done.
Qed.

Lemma read_hit upstream ref node :
  cached node = Some (upstream, ref) ->
  read resultFunc upstream node = (Ok ref, node).
Proof. intros H. unfold read. rewrite H. by rewrite decide_True. Qed.

Lemma read_miss upstream node :
  (forall ref, cached node <> Some (upstream, ref)) ->
  read resultFunc upstream node = recompute resultFunc upstream node.
Proof.
  intros H. unfold read. destruct (cached node) as [[recorded output]|]; [|done].
  destruct (decide (recorded = upstream)) as [->|]; [|done].
  by destruct (H output).
Qed.

Lemma read_Ok_cached upstream node ref node' :
  read resultFunc upstream node = (Ok ref, node') ->
  cached node' = Some (upstream, ref).
Proof.
  unfold read. destruct (cached node) as [[recorded output]|] eqn:Hc.
  - destruct (decide (recorded = upstream)) as [->|].
    + by intros [= <- <-].
    + intros H. by apply recompute_Ok in H as [? _].
  - intros H. by apply recompute_Ok in H as [? _].
Qed.

Lemma read_cacheInRange upstream node :
  cacheInRange node -> cacheInRange (read resultFunc upstream node).2.
Proof.
  intros Hin. unfold read.
  destruct (cached node) as [[recorded output]|] eqn:Hc.
  - destruct (decide (recorded = upstream)); [done|].
    unfold recompute. destruct (resultFunc upstream); simpl; [|done].
    intros ? ? [= _ <-]. simpl. rewrite length_app. simpl. lia.
  - unfold recompute. destruct (resultFunc upstream); simpl.
    + intros ? ? [= _ <-]. simpl. rewrite length_app. simpl. lia.
    + intros ? ?. simpl. by rewrite Hc.
Qed.

(** A failing recomputation keeps the previous cache. *)
Lemma read_Throw_keeps_cache upstream node message node' :
  read resultFunc upstream node = (Throw message, node') ->
  cached node' = cached node /\ outputs node' = outputs node.
Proof.
  unfold read, recompute.
  destruct (cached node) as [[recorded output]|];
    [destruct (decide (recorded = upstream)); [done|] |];
    destruct (resultFunc upstream); by intros [= <- <-].
Qed.

(** A recomputation publishes a new reference, even for an equal value. *)
Lemma read_changed_fresh upstream changed node ref ref' node' node'' :
  cacheInRange node ->
  read resultFunc upstream node = (Ok ref, node') ->
  changed <> upstream ->
  read resultFunc changed node' = (Ok ref', node'') ->
  ref' <> ref.
Proof.
  intros Hin Hread Hne Hread'.
  pose proof (read_cacheInRange upstream node Hin) as Hin'.
  rewrite Hread in Hin'. simpl in Hin'.
  pose proof (read_Ok_cached _ _ _ _ Hread) as Hc.
  rewrite read_miss in Hread'.
  - apply recompute_Ok in Hread' as (_ & -> & _).
    specialize (Hin' _ _ Hc). lia.
  - intros r. rewrite Hc. congruence.
Qed.

(** A read never serves a stale output: the reference it returns holds what
    the wrapped function computes from the upstream values of this read. *)
Lemma read_sound upstream node ref node' :
  cacheSound resultFunc node ->
  read resultFunc upstream node = (Ok ref, node') ->
  cacheSound resultFunc node' /\
  exists value, valueOf node' ref = Some value /\ resultFunc upstream = Ok value.
Proof.
  intros Hsound Hread.
  assert (cacheSound resultFunc node') as Hsound'.
  { revert Hread. unfold read.
    destruct (cached node) as [[recorded output]|] eqn:Hc;
      [destruct (decide (recorded = upstream)) as [->|]; [by intros [= <- <-]|] |];
      unfold recompute; destruct (resultFunc upstream) as [value|] eqn:Hf;
      intros [= <- <-]; intros ? ? [= <- <-]; exists value; unfold valueOf; simpl;
      (split; [by apply list_lookup_middle | done]). }
  split; [done|]. apply (Hsound' upstream). by eapply read_Ok_cached.
Qed.


End NodeFacts.

(** ** Call-node tables and paths *)

Section CallNodeTableFacts.
Import ProfileData.

Lemma parentsPrecede_app_l (table extra : list CallNode) :
  parentsPrecede (table ++ extra) -> parentsPrecede table.
Proof.
  intros Hwf n node parent Hn Hp.
  apply (Hwf n node parent); [|done].
  rewrite lookup_app_l; [done | by eapply lookup_lt_Some].
Qed.

Lemma pathOfFuel_enough (table : list CallNode) :
  parentsPrecede table ->
  forall fuel1 fuel2 n, n < fuel1 -> n < fuel2 ->
    pathOfFuel fuel1 table n = pathOfFuel fuel2 table n.
Proof.
  intros Hwf. induction fuel1 as [|fuel1 IH]; intros fuel2 n H1 H2; [lia|].
  destruct fuel2 as [|fuel2]; [lia|]. cbn [pathOfFuel].
  destruct (table !! n) as [node|] eqn:Hn; [|done].
  destruct (parentCallNodeIndex node) as [parent|] eqn:Hp; [|done].
  pose proof (Hwf _ _ _ Hn Hp).
  rewrite (IH fuel2 parent); [done | lia | lia].
Qed.

Lemma pathOf_unfold (table : list CallNode) n node :
  parentsPrecede table ->
  table !! n = Some node ->
  pathOf table n = pathTo table (parentCallNodeIndex node) ++ [callNodeFunc node].
Proof.
  intros Hwf Hn. unfold pathOf.
  pose proof (lookup_lt_Some _ _ _ Hn) as Hlt.
  destruct (length table) as [|k] eqn:Hlen; [lia|].
  cbn [pathOfFuel]. rewrite Hn.
  destruct (parentCallNodeIndex node) as [parent|] eqn:Hp; [|done].
  simpl. unfold pathOf. rewrite Hlen.
  pose proof (Hwf _ _ _ Hn Hp).
  rewrite (pathOfFuel_enough table Hwf k (S k) parent); [done | lia | lia].
Qed.

Lemma pathOf_nonempty (table : list CallNode) n :
  parentsPrecede table -> n < length table -> pathOf table n <> [].
Proof.
  intros Hwf Hlt. apply lookup_lt_is_Some in Hlt as [node Hn].
  rewrite (pathOf_unfold _ _ _ Hwf Hn). by destruct (pathTo _ _).
Qed.

Lemma pathOf_app_l (table extra : list CallNode) :
  parentsPrecede (table ++ extra) ->
  forall n, n < length table -> pathOf (table ++ extra) n = pathOf table n.
Proof.
  intros Hwf.
  pose proof (parentsPrecede_app_l _ _ Hwf) as Hwf'.
  induction n as [n IH] using lt_wf_ind. intros Hlt.
  destruct (lookup_lt_is_Some_2 _ _ Hlt) as [node Hn].
  assert ((table ++ extra) !! n = Some node) as Hn' by by rewrite lookup_app_l.
  rewrite (pathOf_unfold _ _ _ Hwf Hn'), (pathOf_unfold _ _ _ Hwf' Hn).
  destruct (parentCallNodeIndex node) as [parent|] eqn:Hp; [|done].
  simpl. pose proof (Hwf' _ _ _ Hn Hp). rewrite IH; [done | lia | lia].
Qed.

Lemma findChild_Some (table : list CallNode) parent func child :
  findChild table parent func = Some child ->
  exists node, table !! child = Some node /\ isChildKeyed parent func node.
Proof.
  unfold findChild. destruct (list_find _ table) as [[i node]|] eqn:Hfind; [|done].
  intros [= <-]. apply list_find_Some in Hfind as (? & ? & _). eauto.
Qed.

Lemma findChild_None (table : list CallNode) parent func n node :
  findChild table parent func = None ->
  table !! n = Some node -> ~ isChildKeyed parent func node.
Proof.
  unfold findChild. destruct (list_find _ table) as [[i x]|] eqn:Hfind; [done|].
  intros _ Hn. apply list_find_None in Hfind.
  by eapply Forall_lookup_1 in Hfind.
Qed.

Lemma findChild_keyed (table : list CallNode) n node :
  keysUnique table ->
  table !! n = Some node ->
  findChild table (parentCallNodeIndex node) (callNodeFunc node) = Some n.
Proof.
  intros Huniq Hn.
  destruct (findChild table (parentCallNodeIndex node) (callNodeFunc node))
    as [child|] eqn:Hfind.
  - apply findChild_Some in Hfind as (other & Hother & [Hparent Hfunc]).
    f_equal. by apply (Huniq child n other node).
  - exfalso. by eapply (findChild_None _ _ _ _ _ Hfind Hn).
Qed.

Lemma descend_app (table : list CallNode) (path1 path2 : CallNodePath) start :
  descend table start (path1 ++ path2) =
  descend table start path1 ≫= fun position => descend table position path2.
Proof.
  revert start. induction path1 as [|func rest IH]; intros start; [done|].
  simpl. destruct (findChild table start func); simpl; [apply IH | done].
Qed.

Lemma descend_pathOf (table : list CallNode) :
  parentsPrecede table -> keysUnique table ->
  forall n, n < length table -> descend table None (pathOf table n) = Some (Some n).
Proof.
  intros Hwf Huniq. induction n as [n IH] using lt_wf_ind. intros Hlt.
  destruct (lookup_lt_is_Some_2 _ _ Hlt) as [node Hn].
  rewrite (pathOf_unfold _ _ _ Hwf Hn), descend_app.
  pose proof (findChild_keyed _ _ _ Huniq Hn) as Hfind.
  destruct (parentCallNodeIndex node) as [parent|] eqn:Hp; simpl.
  - pose proof (Hwf _ _ _ Hn Hp). rewrite IH; [|lia..].
    simpl. by rewrite Hfind.
  - by rewrite Hfind.
Qed.

Lemma descend_Reaches (table : list CallNode) (path : CallNodePath) :
  forall start n, path <> [] ->
    descend table start path = Some (Some n) -> Reaches table start path n.
Proof.
  induction path as [|func rest IH]; intros start n Hne Hd; [done|].
  simpl in Hd.
  destruct (findChild table start func) as [child|] eqn:Hfind; [|done].
  simpl in Hd. apply findChild_Some in Hfind as (node & Hnode & Hkey).
  destruct rest as [|func' rest'].
  - injection Hd as ->. by eapply reaches_child.
  - eapply reaches_step; [done..|]. by apply IH.
Qed.

Lemma Reaches_pathOf (table : list CallNode) start path n :
  parentsPrecede table ->
  Reaches table start path n ->
  n < length table /\ pathOf table n = pathTo table start ++ path.
Proof.
  intros Hwf. induction 1 as [start func child node Hnode [Hp Hf]
                             |start func child node rest n Hnode [Hp Hf] _ IH].
  - split; [by eapply lookup_lt_Some|].
    rewrite (pathOf_unfold _ _ _ Hwf Hnode). by rewrite Hp, Hf.
  - destruct IH as [Hlt ->]. split; [done|]. simpl.
    rewrite (pathOf_unfold _ _ _ Hwf Hnode), Hp, Hf. by rewrite <- app_assoc.
Qed.

(** A path that resolves is the path of the node it resolves to. *)
Lemma getCallNodeIndexFromPath_Some (table : list CallNode) path n :
  parentsPrecede table ->
  getCallNodeIndexFromPath path table = Some n ->
  n < length table /\ pathOf table n = path.
Proof.
  intros Hwf. unfold getCallNodeIndexFromPath.
  destruct (descend table None path) as [[m|]|] eqn:Hd; [|done..].
  intros [= ->].
  destruct path as [|func rest]; [done|].
  apply descend_Reaches in Hd; [|done].
  by apply Reaches_pathOf in Hd.
Qed.

(** C5: in a call-node table (parents first, one node per parent and
    function), the path of a call node resolves to that call node. *)
Theorem getCallNodeIndexFromPath_pathOf (table : list CallNode)
    (n : IndexIntoCallNodeTable) :
  parentsPrecede table -> keysUnique table -> n < length table ->
  getCallNodeIndexFromPath (pathOf table n) table = Some n.
Proof.
  intros Hwf Huniq Hlt. unfold getCallNodeIndexFromPath.
  by rewrite descend_pathOf.
Qed.

Lemma pathOf_inj (table : list CallNode) n m :
  parentsPrecede table -> keysUnique table ->
  n < length table -> m < length table ->
  pathOf table n = pathOf table m -> n = m.
Proof.
  intros Hwf Huniq Hn Hm Heq.
  pose proof (descend_pathOf table Hwf Huniq n Hn) as H1.
  pose proof (descend_pathOf table Hwf Huniq m Hm) as H2.
  rewrite Heq in H1. congruence.
Qed.

End CallNodeTableFacts.

(** ** The call-node table builder *)

Section TableInvariantFacts.
Import ProfileData.

Lemma TableInvariant_empty : TableInvariant emptyCallNodeBuilder.
Proof.
  split; simpl; try done.
  intros parent func c. rewrite lookup_empty. split; [done|].
  by intros (node & ? & _).
Qed.

Lemma TableInvariant_recordMapping b (c : option nat) :
  TableInvariant b ->
  (forall n, c = Some n -> n < length (builtCallNodes b)) ->
  TableInvariant (recordMapping b c).
Proof.
  intros Hinv Hc. split; simpl; [apply Hinv | apply Hinv |].
  intros s n [[_ Hs]|[_ Heq]]%lookup_snoc_Some; [by eapply (inv_range _ Hinv) | by apply Hc].
Qed.

Lemma TableInvariant_addCallNode b (parent : option nat) frame :
  TableInvariant b ->
  (forall p, parent = Some p -> p < length (builtCallNodes b)) ->
  callNodeByParentAndFunc b !! (parent, funcIndex frame) = None ->
  TableInvariant (addCallNode b parent frame).
Proof.
  intros Hinv Hparent Hfresh. split; simpl.
  - intros n node p [[_ Hn]|[-> <-]]%lookup_snoc_Some Hp.
    + by eapply (inv_parents _ Hinv).
    + by apply Hparent.
  - intros parent' func c. split.
    + destruct (decide ((parent, funcIndex frame) = (parent', func))) as [[= <- <-]|Hne].
      * rewrite lookup_insert_eq. intros [= <-]. eexists.
        split; [by apply list_lookup_middle | done].
      * rewrite lookup_insert_ne by done. intros Hc.
        apply (inv_keys _ Hinv) in Hc as (node & Hnode & Hkey).
        exists node. split; [|done]. by apply lookup_app_l_Some.
    + intros (node & [[_ Hnode]|[-> <-]]%lookup_snoc_Some & Hkey).
      * assert (callNodeByParentAndFunc b !! (parent', func) = Some c) as Hc
          by (apply (inv_keys _ Hinv); eauto).
        rewrite lookup_insert_ne; [done|]. intros [= <- <-]. congruence.
      * destruct Hkey as [<- <-]. simpl. by rewrite lookup_insert_eq.
  - intros s c Hs. rewrite length_app. apply (inv_range _ Hinv) in Hs. lia.
Qed.

Lemma parentCallNodeOf_range b entry (p : nat) :
  TableInvariant b ->
  parentCallNodeOf (builtStackIndexToCallNodeIndex b) entry = Some (Some p) ->
  p < length (builtCallNodes b).
Proof.
  intros Hinv. unfold parentCallNodeOf.
  destruct (parentStackIndex entry) as [parentStack|]; [|done].
  destruct (builtStackIndexToCallNodeIndex b !! parentStack) as [[c|]|] eqn:Hm; [|done..].
  intros [= <-]. by eapply (inv_range _ Hinv).
Qed.

Lemma TableInvariant_addStack frames b entry :
  TableInvariant b -> TableInvariant (addStack frames b entry).
Proof.
  intros Hinv. unfold addStack.
  destruct (frames !! frameIndex entry) as [frame|];
    [|by apply TableInvariant_recordMapping].
  destruct (parentCallNodeOf (builtStackIndexToCallNodeIndex b) entry)
    as [parent|] eqn:Hparent; [|by apply TableInvariant_recordMapping].
  assert (forall p, parent = Some p -> p < length (builtCallNodes b)) as Hrange.
  { intros p ->. by eapply parentCallNodeOf_range. }
  destruct (callNodeByParentAndFunc b !! (parent, funcIndex frame))
    as [existing|] eqn:Hkey.
  - apply TableInvariant_recordMapping; [done|]. intros n [= <-].
    apply (inv_keys _ Hinv) in Hkey as (node & Hnode & _).
    by eapply lookup_lt_Some.
  - apply TableInvariant_recordMapping; [by apply TableInvariant_addCallNode|].
    intros n [= <-]. simpl. rewrite length_app. simpl. lia.
Qed.

Lemma buildCallNodes_snoc frames (processed : list Stack) entry :
  buildCallNodes frames (processed ++ [entry]) =
  addStack frames (buildCallNodes frames processed) entry.
Proof. unfold buildCallNodes. by rewrite foldl_app. Qed.

Lemma TableInvariant_buildCallNodes frames (stacks : list Stack) :
  TableInvariant (buildCallNodes frames stacks).
Proof.
  induction stacks as [|entry stacks IH] using rev_ind.
  - apply TableInvariant_empty.
  - rewrite buildCallNodes_snoc. by apply TableInvariant_addStack.
Qed.

Lemma TableInvariant_keysUnique b :
  TableInvariant b -> keysUnique (builtCallNodes b).
Proof.
  intros Hinv i j a c Hi Hj Hp Hf.
  assert (callNodeByParentAndFunc b !! (parentCallNodeIndex a, callNodeFunc a) = Some i)
    as H1 by (apply (inv_keys _ Hinv); by exists a).
  assert (callNodeByParentAndFunc b !! (parentCallNodeIndex a, callNodeFunc a) = Some j)
    as H2 by (apply (inv_keys _ Hinv); by exists c).
  congruence.
Qed.

End TableInvariantFacts.

(** The table that the builder produces is a call-node table, from any stack
    table. *)
Lemma getCallNodeInfo_invariants stacks frames funcs defaultCategory :
  let info := ProfileData.getCallNodeInfo stacks frames funcs defaultCategory in
  parentsPrecede (callNodeTable info) /\ keysUnique (callNodeTable info).
Proof.
  simpl. pose proof (TableInvariant_buildCallNodes frames stacks) as Hinv.
  split; [apply Hinv | by apply TableInvariant_keysUnique].
Qed.

Section PathInvariantFacts.
Import ProfileData.

Variable stacks : list Stack.
Variable frames : list Frame.
Hypothesis stacks_ordered : stackParentsPrecede stacks.

Lemma stackFuncPathFuel_enough :
  forall fuel1 fuel2 s, s < fuel1 -> s < fuel2 ->
    stackFuncPathFuel fuel1 stacks frames s = stackFuncPathFuel fuel2 stacks frames s.
Proof.
  induction fuel1 as [|fuel1 IH]; intros fuel2 s H1 H2; [lia|].
  destruct fuel2 as [|fuel2]; [lia|]. cbn [stackFuncPathFuel].
  destruct (stacks !! s) as [entry|] eqn:Hs; [|done]. simpl.
  destruct (frames !! frameIndex entry) as [frame|]; [|done]. simpl.
  destruct (parentStackIndex entry) as [parent|] eqn:Hp; [|done].
  pose proof (stacks_ordered _ _ _ Hs Hp).
  rewrite (IH fuel2 parent); [done | lia | lia].
Qed.

Lemma stackFuncPath_unfold s entry :
  stacks !! s = Some entry ->
  stackFuncPath stacks frames s =
  frame ← frames !! frameIndex entry;
  match parentStackIndex entry with
  | None => Some [funcIndex frame]
  | Some parent =>
      above ← stackFuncPath stacks frames parent;
      Some (above ++ [funcIndex frame])
  end.
Proof.
  intros Hs. unfold stackFuncPath.
  pose proof (lookup_lt_Some _ _ _ Hs) as Hlt.
  destruct (length stacks) as [|k] eqn:Hlen; [lia|].
  cbn [stackFuncPathFuel]. rewrite Hs. simpl.
  destruct (frames !! frameIndex entry) as [frame|]; [|done]. simpl.
  destruct (parentStackIndex entry) as [parent|] eqn:Hp; [|done].
  pose proof (stacks_ordered _ _ _ Hs Hp).
  rewrite (stackFuncPathFuel_enough k (S k) parent); [done | lia | lia].
Qed.

Lemma stackFuncPath_Some_lt s path :
  stackFuncPath stacks frames s = Some path -> s < length stacks.
Proof.
  unfold stackFuncPath. destruct (length stacks) as [|k] eqn:Hlen; [done|].
  cbn [stackFuncPathFuel]. destruct (stacks !! s) eqn:Hs; [|done].
  intros _. rewrite <- Hlen. by eapply lookup_lt_Some.
Qed.

Lemma PathInvariant_empty : PathInvariant stacks frames 0 emptyCallNodeBuilder.
Proof. split; simpl; [done | done | intros; lia]. Qed.

(** The path of the stack about to be walked, in terms of the call node found
    for its parent. *)
Lemma parentCallNodeOf_path k b entry :
  PathInvariant stacks frames k b ->
  stacks !! k = Some entry ->
  match parentCallNodeOf (builtStackIndexToCallNodeIndex b) entry with
  | Some parent =>
      stackFuncPath stacks frames k =
      frame ← frames !! frameIndex entry;
      Some (pathTo (builtCallNodes b) parent ++ [funcIndex frame])
  | None => stackFuncPath stacks frames k = None
  end.
Proof.
  intros Hinv Hk. rewrite (stackFuncPath_unfold _ _ Hk).
  unfold parentCallNodeOf.
  destruct (parentStackIndex entry) as [parentStack|] eqn:Hp.
  - pose proof (stacks_ordered _ _ _ Hk Hp) as Hlt.
    destruct (builtStackIndexToCallNodeIndex b !! parentStack) as [[c|]|] eqn:Hm.
    + rewrite (inv_mapped _ _ _ _ Hinv _ _ Hm). simpl.
      by destruct (frames !! frameIndex entry).
    + destruct (stackFuncPath stacks frames parentStack) as [above|] eqn:Habove.
      * destruct (inv_total _ _ _ _ Hinv parentStack Hlt) as [c Hc]; [by eexists|].
        congruence.
      * by destruct (frames !! frameIndex entry).
    + apply lookup_ge_None in Hm. rewrite (inv_length _ _ _ _ Hinv) in Hm. lia.
  - simpl. by destruct (frames !! frameIndex entry).
Qed.

Lemma PathInvariant_recordMapping k b (c : option nat) :
  PathInvariant stacks frames k b ->
  stackFuncPath stacks frames k = pathOf (builtCallNodes b) <$> c ->
  PathInvariant stacks frames (S k) (recordMapping b c).
Proof.
  intros Hinv Hpath. split; simpl.
  - rewrite length_app, (inv_length _ _ _ _ Hinv). simpl. lia.
  - intros s n [[_ Hs]|[Hs ->]]%lookup_snoc_Some; [by apply Hinv|].
    rewrite (inv_length _ _ _ _ Hinv) in Hs. by subst s.
  - intros s Hs Hsome. destruct (decide (s = k)) as [->|Hne].
    + rewrite Hpath in Hsome. destruct c as [n|]; [|by destruct Hsome].
      exists n. rewrite lookup_app_r; rewrite (inv_length _ _ _ _ Hinv); [|lia].
      by rewrite Nat.sub_diag.
    + destruct (inv_total _ _ _ _ Hinv s) as [n Hn]; [lia | done |].
      exists n. rewrite lookup_app_l; [done|]. rewrite (inv_length _ _ _ _ Hinv). lia.
Qed.

Lemma PathInvariant_addCallNode k b (parent : option nat) frame :
  TableInvariant b ->
  TableInvariant (addCallNode b parent frame) ->
  PathInvariant stacks frames k b ->
  PathInvariant stacks frames k (addCallNode b parent frame).
Proof.
  intros Htable Htable' Hinv. split; simpl.
  - apply Hinv.
  - intros s c Hs. rewrite (inv_mapped _ _ _ _ Hinv _ _ Hs). f_equal. symmetry.
    apply pathOf_app_l; [apply Htable' | by eapply (inv_range _ Htable)].
  - apply Hinv.
Qed.

Lemma pathOf_addCallNode b (parent : option nat) frame :
  TableInvariant (addCallNode b parent frame) ->
  (forall p, parent = Some p -> p < length (builtCallNodes b)) ->
  pathOf (builtCallNodes (addCallNode b parent frame)) (length (builtCallNodes b)) =
  pathTo (builtCallNodes b) parent ++ [funcIndex frame].
Proof.
  intros Htable' Hrange.
  pose proof (inv_parents _ Htable') as Hwf.
  erewrite (pathOf_unfold _ _ _ Hwf); [|by apply list_lookup_middle].
  simpl. f_equal. destruct parent as [p|]; [|done]. simpl.
  apply (pathOf_app_l _ _ Hwf). by apply Hrange.
Qed.

Lemma PathInvariant_addStack k b entry :
  TableInvariant b ->
  PathInvariant stacks frames k b ->
  stacks !! k = Some entry ->
  PathInvariant stacks frames (S k) (addStack frames b entry).
Proof.
  intros Htable Hinv Hk.
  pose proof (parentCallNodeOf_path k b entry Hinv Hk) as Hpath.
  unfold addStack.
  destruct (frames !! frameIndex entry) as [frame|] eqn:Hframe.
  - destruct (parentCallNodeOf (builtStackIndexToCallNodeIndex b) entry)
      as [parent|] eqn:Hparent; [|by apply PathInvariant_recordMapping].
    simpl in Hpath.
    assert (forall p, parent = Some p -> p < length (builtCallNodes b)) as Hrange.
    { intros p ->. by eapply parentCallNodeOf_range. }
    destruct (callNodeByParentAndFunc b !! (parent, funcIndex frame))
      as [existing|] eqn:Hkey.
    + apply PathInvariant_recordMapping; [done|]. simpl.
      apply (inv_keys _ Htable) in Hkey as (node & Hnode & [Hp Hf]).
      rewrite (pathOf_unfold _ _ _ (inv_parents _ Htable) Hnode).
      by rewrite Hp, Hf.
    + pose proof (TableInvariant_addCallNode b parent frame Htable Hrange Hkey) as Htable'.
      apply PathInvariant_recordMapping; [by apply PathInvariant_addCallNode|].
      rewrite Hpath. simpl. f_equal. symmetry.
      by apply (pathOf_addCallNode b parent frame).
  - apply PathInvariant_recordMapping; [done|]. simpl.
    by destruct (parentCallNodeOf _ entry).
Qed.

Lemma PathInvariant_prefix (processed : list Stack) :
  processed `prefix_of` stacks ->
  PathInvariant stacks frames (length processed) (buildCallNodes frames processed).
Proof.
  induction processed as [|entry processed IH] using rev_ind; intros Hprefix.
  - apply PathInvariant_empty.
  - rewrite buildCallNodes_snoc, length_app. simpl.
    replace (length processed + 1) with (S (length processed)) by lia.
    apply PathInvariant_addStack.
    + apply TableInvariant_buildCallNodes.
    + apply IH. by eapply prefix_app_l.
    + destruct Hprefix as [rest ->]. rewrite <- app_assoc. by apply list_lookup_middle.
Qed.

Lemma PathInvariant_buildCallNodes :
  PathInvariant stacks frames (length stacks) (buildCallNodes frames stacks).
Proof. by apply PathInvariant_prefix. Qed.

End PathInvariantFacts.

Lemma buildCallNodes_same_path (stacks : list Stack) (frames : list Frame)
    (s1 s2 : IndexIntoStackTable) (path : CallNodePath) :
  stackParentsPrecede stacks ->
  ProfileData.stackFuncPath stacks frames s1 = Some path ->
  ProfileData.stackFuncPath stacks frames s2 = Some path ->
  let mapping :=
    ProfileData.builtStackIndexToCallNodeIndex (ProfileData.buildCallNodes frames stacks) in
  exists c : IndexIntoCallNodeTable,
    mapping !! s1 = Some (Some c) /\ mapping !! s2 = Some (Some c).
Proof.
  intros Hordered H1 H2. simpl.
  pose proof (TableInvariant_buildCallNodes frames stacks) as Htable.
  pose proof (PathInvariant_buildCallNodes stacks frames Hordered) as Hinv.
  destruct (inv_total _ _ _ _ Hinv s1) as [c1 Hc1];
    [by eapply stackFuncPath_Some_lt | by eexists |].
  destruct (inv_total _ _ _ _ Hinv s2) as [c2 Hc2];
    [by eapply stackFuncPath_Some_lt | by eexists |].
  pose proof (inv_mapped _ _ _ _ Hinv _ _ Hc1) as Hp1.
  pose proof (inv_mapped _ _ _ _ Hinv _ _ Hc2) as Hp2.
  assert (c1 = c2) as <-.
  { apply (pathOf_inj (ProfileData.builtCallNodes (ProfileData.buildCallNodes frames stacks)));
      [apply Htable | by apply TableInvariant_keysUnique
      | by eapply (inv_range _ Htable) | by eapply (inv_range _ Htable) | congruence]. }
  by exists c1.
Qed.

(** C3: two stacks of the filtered thread with the same root-to-leaf function
    path are collapsed to the same call node by the call-node info selector. *)
Theorem getCallNodeInfo_same_path (state : State) (info : CallNodeInfo)
    (s1 s2 : IndexIntoStackTable) (path : CallNodePath) :
  let thread := stateFilteredThread state in
  stackParentsPrecede (stackTable thread) ->
  getCallNodeInfo state = Ok info ->
  ProfileData.stackFuncPath (stackTable thread) (frameTable thread) s1 = Some path ->
  ProfileData.stackFuncPath (stackTable thread) (frameTable thread) s2 = Some path ->
  exists c : IndexIntoCallNodeTable,
    stackIndexToCallNodeIndex info !! s1 = Some (Some c) /\
    stackIndexToCallNodeIndex info !! s2 = Some (Some c).
Proof.
  cbv zeta. intros Hordered [= <-] H1 H2.
  by apply (buildCallNodes_same_path _ _ s1 s2 path).
Qed.

(** A stack without a path (a frame is missing on the way to its root) has no
    call node. *)
Lemma getCallNodeInfo_no_path stacks frames funcs defaultCategory s :
  stackParentsPrecede stacks -> s < length stacks ->
  ProfileData.stackFuncPath stacks frames s = None ->
  stackIndexToCallNodeIndex
    (ProfileData.getCallNodeInfo stacks frames funcs defaultCategory) !! s = Some None.
Proof.
  intros Hordered Hlt Hnone. simpl.
  pose proof (PathInvariant_buildCallNodes stacks frames Hordered) as Hinv.
  destruct (lookup_lt_is_Some_2
              (ProfileData.builtStackIndexToCallNodeIndex
                 (ProfileData.buildCallNodes frames stacks)) s) as [[c|] Hs];
    [by rewrite (inv_length _ _ _ _ Hinv) | | done].
  pose proof (inv_mapped _ _ _ _ Hinv _ _ Hs). congruence.
Qed.

(** ** The selected call node *)

Lemma Reaches_findChild (table : list CallNode) start func rest n :
  Reaches table start (func :: rest) n ->
  ProfileData.findChild table start func <> None.
Proof.
  intros H Hnone.
  inversion H as [? ? child node Hnode Hkey|? ? child node ? ? Hnode Hkey _]; subst;
    by eapply findChild_None.
Qed.

(** In a call-node table, the paths that resolve are the paths of its nodes. *)
Lemma Reaches_iff_pathOf (table : list CallNode) path n :
  parentsPrecede table -> keysUnique table ->
  Reaches table None path n <-> n < length table /\ ProfileData.pathOf table n = path.
Proof.
  intros Hwf Huniq. split.
  - intros H. by apply Reaches_pathOf in H.
  - intros [Hlt <-]. apply descend_Reaches.
    + by apply pathOf_nonempty.
    + by apply descend_pathOf.
Qed.

Lemma getCallNodeIndexFromPath_unreached (table : list CallNode) path :
  (forall n, ~ Reaches table None path n) ->
  ProfileData.getCallNodeIndexFromPath path table = None.
Proof.
  intros Hunresolved. unfold ProfileData.getCallNodeIndexFromPath.
  destruct (ProfileData.descend table None path) as [[n|]|] eqn:Hd; [|done..].
  exfalso. apply (Hunresolved n). apply descend_Reaches; [|done].
  intros Hnil. by rewrite Hnil in Hd.
Qed.

Lemma getSelectedCallNodeIndex_eq (state : State) :
  let thread := stateFilteredThread state in
  let info :=
    ProfileData.getCallNodeInfo (stackTable thread) (frameTable thread)
      (funcTable thread) (stateDefaultCategory state) in
  getSelectedCallNodeIndex state =
  Ok (ProfileData.getCallNodeIndexFromPath
        (selectedCallNodePath (stateViewOptions state)) (callNodeTable info)).
Proof. reflexivity. Qed.

(** C8: a selected path that does not resolve against the current call-node
    table (no descent from the root along it reaches a node) makes the selected
    index [null]; this is a result, not a throw. *)
Theorem getSelectedCallNodeIndex_unresolved (state : State) :
  let thread := stateFilteredThread state in
  let info :=
    ProfileData.getCallNodeInfo (stackTable thread) (frameTable thread)
      (funcTable thread) (stateDefaultCategory state) in
  let path := selectedCallNodePath (stateViewOptions state) in
  (forall n, ~ Reaches (callNodeTable info) None path n) ->
  getSelectedCallNodeIndex state = Ok None.
Proof.
  cbv zeta. intros Hunresolved.
  rewrite getSelectedCallNodeIndex_eq. f_equal.
  by apply getCallNodeIndexFromPath_unreached.
Qed.

(** A selected path that is the path of no call node selects nothing. *)
Lemma getSelectedCallNodeIndex_no_such_node (state : State) :
  let thread := stateFilteredThread state in
  let info :=
    ProfileData.getCallNodeInfo (stackTable thread) (frameTable thread)
      (funcTable thread) (stateDefaultCategory state) in
  let path := selectedCallNodePath (stateViewOptions state) in
  (forall n, n < length (callNodeTable info) ->
     ProfileData.pathOf (callNodeTable info) n <> path) ->
  getSelectedCallNodeIndex state = Ok None.
Proof.
  cbv zeta. intros Hnone.
  rewrite getSelectedCallNodeIndex_eq. f_equal.
  apply getCallNodeIndexFromPath_unreached.
  intros n Hreach.
  destruct (getCallNodeInfo_invariants (stackTable (stateFilteredThread state))
              (frameTable (stateFilteredThread state))
              (funcTable (stateFilteredThread state))
              (stateDefaultCategory state)) as [Hwf Huniq].
  apply (Reaches_iff_pathOf _ _ _ Hwf Huniq) in Hreach as [Hlt Hpath].
  by apply (Hnone n).
Qed.

(** Selecting the path of a call node selects that call node. *)
Lemma getSelectedCallNodeIndex_round_trip (state : State) (n : IndexIntoCallNodeTable) :
  let thread := stateFilteredThread state in
  let info :=
    ProfileData.getCallNodeInfo (stackTable thread) (frameTable thread)
      (funcTable thread) (stateDefaultCategory state) in
  n < length (callNodeTable info) ->
  selectedCallNodePath (stateViewOptions state) = ProfileData.pathOf (callNodeTable info) n ->
  getSelectedCallNodeIndex state = Ok (Some n).
Proof.
  cbv zeta. intros Hlt Hpath.
  rewrite getSelectedCallNodeIndex_eq, Hpath. f_equal.
  destruct (getCallNodeInfo_invariants (stackTable (stateFilteredThread state))
              (frameTable (stateFilteredThread state))
              (funcTable (stateFilteredThread state))
              (stateDefaultCategory state)) as [Hwf Huniq].
  unfold ProfileData.getCallNodeIndexFromPath. by rewrite descend_pathOf.
Qed.

(** ** The call tree aggregator *)

Section AggregatorFacts.
Import CallTree.
















End AggregatorFacts.

(** * The properties on the small thread *)

Lemma scenarioStacks_ordered : stackParentsPrecede scenarioStacks.
Proof.
  intros s entry parent Hs Hp.
  repeat (destruct s as [|s];
          [ simpl in Hs; injection Hs as <-; simpl in Hp;
            first [ discriminate | injection Hp as <-; lia ] | ]).
  simpl in Hs. discriminate.
Qed.

Example scenario_callNodeInfo :
  scenarioCallNodeInfo =
  {| callNodeTable :=
       [ {| parentCallNodeIndex := None; callNodeFunc := 0;
            callNodeCategory := 0; depth := 0 |};
         {| parentCallNodeIndex := Some 0; callNodeFunc := 1;
            callNodeCategory := 0; depth := 1 |};
         {| parentCallNodeIndex := Some 0; callNodeFunc := 2;
            callNodeCategory := 0; depth := 1 |} ];
     stackIndexToCallNodeIndex := [Some 0; Some 1; Some 1; Some 2] |}.
Proof. vm_compute. reflexivity. Qed.

Example scenario_callTree :
  CallTree.treeTotals
    (CallTree.computeCallTreeCountsAndTimings (take 3 scenarioRows)
       scenarioCallNodeInfo 1 false) =
  [ {| CallTree.selfCount := 0; CallTree.selfWeight := 0;
       CallTree.totalCount := 3; CallTree.totalWeight := 3 |};
    {| CallTree.selfCount := 2; CallTree.selfWeight := 2;
       CallTree.totalCount := 2; CallTree.totalWeight := 2 |};
    {| CallTree.selfCount := 1; CallTree.selfWeight := 1;
       CallTree.totalCount := 1; CallTree.totalWeight := 1 |} ].
Proof. vm_compute. reflexivity. Qed.

Example scenario_strategy_without_js_allocations :
  getCallTreeSummaryStrategy (scenarioState scenarioThread [] "js-allocations")
  = Ok "timing".
Proof. reflexivity. Qed.

Example scenario_strategy_with_native_allocations :
  getCallTreeSummaryStrategy (scenarioState scenarioThread [] "native-allocations")
  = Ok "native-allocations".
Proof. reflexivity. Qed.

Example scenario_strategy_without_native_allocations :
  getCallTreeSummaryStrategy (scenarioState scenarioTracerThread [] "native-allocations")
  = Ok "timing".
Proof. reflexivity. Qed.

Example scenario_range :
  unfilteredSamplesRange (scenarioState scenarioThread [] "timing")
  = Ok (Some {| rangeStart := 0%float; rangeEnd := 3%float |}).
Proof. vm_compute. reflexivity. Qed.

Lemma getSamplesForCallTree_missing_memoryAddress_witness :
  getSamplesForCallTree Ok Ok Ok Ok
    (scenarioState scenarioThread [] "native-retained-allocations")
  = Throw missingMemoryAddresses.
Proof.
  apply (getSamplesForCallTree_missing_memoryAddress Ok Ok Ok Ok
           (scenarioState scenarioThread [] "native-retained-allocations")
           scenarioNativeAllocations "native-retained-allocations");
    [reflexivity | reflexivity | reflexivity | left; reflexivity].
Defined.

Lemma getCallNodeInfo_same_path_witness :
  exists c : nat,
    stackIndexToCallNodeIndex scenarioCallNodeInfo !! 1 = Some (Some c) /\
    stackIndexToCallNodeIndex scenarioCallNodeInfo !! 2 = Some (Some c).
Proof.
  apply (getCallNodeInfo_same_path (scenarioState scenarioThread [] "timing")
           scenarioCallNodeInfo 1 2 [0; 1]);
    [exact scenarioStacks_ordered | reflexivity | reflexivity | reflexivity].
Defined.

Lemma scenario_table_invariants :
  parentsPrecede (callNodeTable scenarioCallNodeInfo) /\
  keysUnique (callNodeTable scenarioCallNodeInfo).
Proof. apply getCallNodeInfo_invariants. Qed.


Example scenario_root_total :
  CallTree.sumResolvedWeights scenarioRows scenarioCallNodeInfo 1 = 67%Z /\
  CallTree.sumRootTotalWeights
    (CallTree.computeCallTreeCountsAndTimings scenarioRows scenarioCallNodeInfo 1 true)
  = 67%Z.
Proof. vm_compute. done. Qed.

Lemma getCallNodeIndexFromPath_pathOf_witness :
  ProfileData.getCallNodeIndexFromPath
    (ProfileData.pathOf (callNodeTable scenarioCallNodeInfo) 2)
    (callNodeTable scenarioCallNodeInfo)
  = Some 2.
Proof.
  apply (getCallNodeIndexFromPath_pathOf (callNodeTable scenarioCallNodeInfo) 2);
    [exact (proj1 scenario_table_invariants)
    | exact (proj2 scenario_table_invariants)
    | vm_compute; lia].
Defined.


Lemma getSamplesSelectedStatesInFilteredThread_jsTracer_witness :
  getSamplesSelectedStatesInFilteredThread
    (fun _ _ _ _ => Throw "too slow")
    (scenarioState scenarioTracerThread [0; 1] "timing")
  = Ok None.
Proof.
  apply (getSamplesSelectedStatesInFilteredThread_jsTracer
           (fun _ _ _ _ => Throw "too slow")
           (scenarioState scenarioTracerThread [0; 1] "timing")).
  reflexivity.
Defined.

Lemma getSelectedCallNodeIndex_unresolved_witness :
  getSelectedCallNodeIndex (scenarioState scenarioThread [2; 0] "timing") = Ok None.
Proof.
  apply (getSelectedCallNodeIndex_unresolved (scenarioState scenarioThread [2; 0] "timing")).
  intros n Hreach. apply Reaches_findChild in Hreach. apply Hreach.
  vm_compute. reflexivity.
Defined.

Example scenario_selected :
  getSelectedCallNodeIndex (scenarioState scenarioThread [0; 2] "timing") = Ok (Some 2).
Proof. vm_compute. reflexivity. Qed.

(** * Further properties of the selectors *)

(** ** The strategy and the sample stream together *)

Lemma getCallTreeSummaryStrategy_switch (state : State) :
  getCallTreeSummaryStrategy state =
  returned ← summaryStrategySwitch (stateThread state)
               (stateLastSelectedCallTreeSummaryStrategy state);
  Ok (default (stateLastSelectedCallTreeSummaryStrategy state) returned).
Proof.
  unfold getCallTreeSummaryStrategy, createSelector2. simpl.
  destruct (summaryStrategySwitch _ _) as [[?|]|]; reflexivity.
Qed.

Lemma getCallTreeSummaryStrategy_js (state : State) :
  stateLastSelectedCallTreeSummaryStrategy state = "js-allocations" ->
  getCallTreeSummaryStrategy state =
  Ok (match jsAllocations (stateThread state) with
      | Some _ => "js-allocations"
      | None => "timing"
      end).
Proof.
  intros Hlast. rewrite getCallTreeSummaryStrategy_switch, Hlast.
  rewrite summaryStrategySwitch_js. by destruct (jsAllocations _).
Qed.

Lemma getCallTreeSummaryStrategy_native (state : State) :
  isNativeAllocationStrategy (stateLastSelectedCallTreeSummaryStrategy state) ->
  getCallTreeSummaryStrategy state =
  Ok (match nativeAllocations (stateThread state) with
      | Some _ => stateLastSelectedCallTreeSummaryStrategy state
      | None => "timing"
      end).
Proof.
  intros Hlast. rewrite getCallTreeSummaryStrategy_switch.
  rewrite (summaryStrategySwitch_native _ _ Hlast). by destruct (nativeAllocations _).
Qed.

Lemma getCallTreeSummaryStrategy_other (state : State) :
  stateLastSelectedCallTreeSummaryStrategy state <> "timing" ->
  stateLastSelectedCallTreeSummaryStrategy state <> "js-allocations" ->
  ~ isNativeAllocationStrategy (stateLastSelectedCallTreeSummaryStrategy state) ->
  exists message, getCallTreeSummaryStrategy state = Throw message.
Proof.
  intros Ht Hj Hn. rewrite getCallTreeSummaryStrategy_switch.
  unfold summaryStrategySwitch.
  apply String.eqb_neq in Ht as ->. apply String.eqb_neq in Hj as ->.
  unfold isNativeAllocationStrategy in Hn.
  repeat match goal with
  | |- context [String.eqb ?a ?b] =>
      destruct (String.eqb_spec a b); [ exfalso; apply Hn; tauto | ]
  end.
  by eexists.
Qed.

Section StreamFacts.

Variable filterToRetainedAllocations : NativeAllocationsTable -> Result NativeAllocationsTable.
Variable filterToAllocations : NativeAllocationsTable -> Result NativeAllocationsTable.
Variable filterToDeallocationsSites : NativeAllocationsTable -> Result NativeAllocationsTable.
Variable filterToDeallocationsMemory : NativeAllocationsTable -> Result NativeAllocationsTable.

Lemma getSamplesForCallTree_timing (state : State) :
  getCallTreeSummaryStrategy state = Ok "timing" ->
  getSamplesForCallTree filterToRetainedAllocations filterToAllocations
    filterToDeallocationsSites filterToDeallocationsMemory state
  = Ok (OfSamples (samples (statePreviewFilteredThread state))).
Proof.
  intros Hstrategy.
  unfold getSamplesForCallTree, createSelector2, threadSelectors.getPreviewFilteredThread.
  simpl. by rewrite Hstrategy.
Qed.

(** X4: the effective strategy never names a table that the thread lacks. *)
Theorem getCallTreeSummaryStrategy_supported (state : State)
    (strategy : CallTreeSummaryStrategy) :
  getCallTreeSummaryStrategy state = Ok strategy ->
  strategy = "timing"
  \/ (strategy = "js-allocations" /\ is_Some (jsAllocations (stateThread state)))
  \/ (isNativeAllocationStrategy strategy /\
      is_Some (nativeAllocations (stateThread state))).
Proof.
  intros Hok.
  destruct (decide (stateLastSelectedCallTreeSummaryStrategy state = "timing")) as [Ht|Ht].
  { rewrite getCallTreeSummaryStrategy_switch, Ht in Hok.
    rewrite summaryStrategySwitch_timing in Hok. injection Hok as <-. by left. }
  destruct (decide (stateLastSelectedCallTreeSummaryStrategy state = "js-allocations"))
    as [Hj|Hj].
  { rewrite (getCallTreeSummaryStrategy_js _ Hj) in Hok.
    destruct (jsAllocations (stateThread state)) eqn:Hjs; injection Hok as <-;
      [right; left; split; [done | by eexists] | by left]. }
  destruct (decide (isNativeAllocationStrategy
                      (stateLastSelectedCallTreeSummaryStrategy state))) as [Hn|Hn].
  { rewrite (getCallTreeSummaryStrategy_native _ Hn) in Hok.
    destruct (nativeAllocations (stateThread state)) eqn:Hnative; injection Hok as <-;
      [right; right; split; [done | by eexists] | by left]. }
  destruct (getCallTreeSummaryStrategy_other state Ht Hj Hn) as [message Hthrow].
  congruence.
Qed.

(** X1: choosing an allocation strategy on a thread without the matching table
    yields the timing samples of the preview-filtered thread, and so does
    choosing timing; nothing is thrown. *)
Theorem getSamplesForCallTree_falls_back_to_samples (state : State) :
  let lastSelected := stateLastSelectedCallTreeSummaryStrategy state in
  lastSelected = "timing"
  \/ (lastSelected = "js-allocations" /\ jsAllocations (stateThread state) = None)
  \/ (isNativeAllocationStrategy lastSelected /\
      nativeAllocations (stateThread state) = None) ->
  getSamplesForCallTree filterToRetainedAllocations filterToAllocations
    filterToDeallocationsSites filterToDeallocationsMemory state
  = Ok (OfSamples (samples (statePreviewFilteredThread state))).
Proof.
  cbv zeta. intros Hcase. apply getSamplesForCallTree_timing.
  destruct Hcase as [Ht | [[Hj Hnone] | [Hn Hnone]]].
  - rewrite getCallTreeSummaryStrategy_switch, Ht. by rewrite summaryStrategySwitch_timing.
  - by rewrite (getCallTreeSummaryStrategy_js _ Hj), Hnone.
  - by rewrite (getCallTreeSummaryStrategy_native _ Hn), Hnone.
Qed.

(** X2: the strategy is checked against the thread, the table is taken from the
    preview-filtered thread: when the thread has the table of the chosen
    strategy and the preview-filtered thread has not, the selection of the
    stream throws. *)
Theorem getSamplesForCallTree_table_filtered_away (state : State) :
  let lastSelected := stateLastSelectedCallTreeSummaryStrategy state in
  (lastSelected = "js-allocations" /\
   is_Some (jsAllocations (stateThread state)) /\
   jsAllocations (statePreviewFilteredThread state) = None)
  \/ (isNativeAllocationStrategy lastSelected /\
      is_Some (nativeAllocations (stateThread state)) /\
      nativeAllocations (statePreviewFilteredThread state) = None) ->
  exists message,
    getSamplesForCallTree filterToRetainedAllocations filterToAllocations
      filterToDeallocationsSites filterToDeallocationsMemory state
    = Throw message.
Proof.
  cbv zeta. intros [(Hj & [t Ht] & Hnone) | (Hn & [t Ht] & Hnone)];
    unfold getSamplesForCallTree, createSelector2, threadSelectors.getPreviewFilteredThread;
    simpl.
  - rewrite (getCallTreeSummaryStrategy_js _ Hj), Ht. simpl. rewrite Hnone. by eexists.
  - rewrite (getCallTreeSummaryStrategy_native _ Hn), Ht.
    destruct Hn as [-> | [-> | [-> | ->]]]; simpl; rewrite Hnone; by eexists.
Qed.

(** X3: the allocation sites and the deallocation sites need no memory addresses:
    with a native allocation table in both threads, the stream is what the
    transform makes of the table of the preview-filtered thread, with or
    without the column. *)
Theorem getSamplesForCallTree_sites_need_no_addresses (state : State)
    (table : NativeAllocationsTable) :
  let lastSelected := stateLastSelectedCallTreeSummaryStrategy state in
  is_Some (nativeAllocations (stateThread state)) ->
  nativeAllocations (statePreviewFilteredThread state) = Some table ->
  (lastSelected = "native-allocations" ->
   getSamplesForCallTree filterToRetainedAllocations filterToAllocations
     filterToDeallocationsSites filterToDeallocationsMemory state
   = OfNativeAllocations <$> filterToAllocations table)
  /\
  (lastSelected = "native-deallocations-sites" ->
   getSamplesForCallTree filterToRetainedAllocations filterToAllocations
     filterToDeallocationsSites filterToDeallocationsMemory state
   = OfNativeAllocations <$> filterToDeallocationsSites table).
Proof.
  cbv zeta. intros [t Ht] Htable.
  split; intros Hlast;
    unfold getSamplesForCallTree, createSelector2, threadSelectors.getPreviewFilteredThread;
    simpl; rewrite getCallTreeSummaryStrategy_native, Ht, Hlast;
    try (rewrite Hlast; unfold isNativeAllocationStrategy; tauto);
    simpl; by rewrite Htable.
Qed.

End StreamFacts.

(** ** Not computed means JS tracer *)

(** X5: the selected states are [null] for JS tracer threads only: on any other
    thread the selector returns the states of the classifier, or throws what
    the classifier throws. *)
Theorem getSamplesSelectedStatesInFilteredThread_null_only_for_jsTracer
    (getSamplesSelectedStates :
       list CallNode -> list (option IndexIntoCallNodeTable) ->
       list (option IndexIntoCallNodeTable) -> option IndexIntoCallNodeTable ->
       Result (list SelectedState))
    (state : State) :
  getSamplesSelectedStatesInFilteredThread getSamplesSelectedStates state = Ok None
  <-> isJsTracer (stateFilteredThread state) = Some true.
Proof.
  unfold getSamplesSelectedStatesInFilteredThread, createSelector4,
    threadSelectors.getFilteredThread, threadSelectors.getTabFilteredThread.
  rewrite getSelectedCallNodeIndex_eq.
  unfold getCallNodeInfo, createSelector2, threadSelectors.getFilteredThread,
    ProfileSelectors.getDefaultCategory.
  simpl.
  destruct (isJsTracer (stateFilteredThread state)) as [[|]|]; simpl; [done | |];
    (split; [|done]);
    match goal with |- context [getSamplesSelectedStates ?a ?b ?c ?d] =>
      destruct (getSamplesSelectedStates a b c d) end; done.
Qed.

(** ** The right-clicked and the selected call node *)

(** X6: a right click on the selected path gives the selected call node. *)
Theorem getRightClickedCallNodeIndex_of_selected_path (state : State) :
  rightClickedCallNodePath (stateViewOptions state) =
    Some (selectedCallNodePath (stateViewOptions state)) ->
  getRightClickedCallNodeIndex state = getSelectedCallNodeIndex state.
Proof.
  intros Hpath. rewrite getSelectedCallNodeIndex_eq.
  unfold getRightClickedCallNodeIndex, createSelector2, getRightClickedCallNodePath,
    threadSelectors.getViewOptions, getCallNodeInfo, createSelector2,
    threadSelectors.getFilteredThread, ProfileSelectors.getDefaultCategory.
  simpl. by rewrite Hpath.
Qed.

(** ** Failures of the sample stream downstream *)

Section DelegatingFacts.

Variable filterToRetainedAllocations : NativeAllocationsTable -> Result NativeAllocationsTable.
Variable filterToAllocations : NativeAllocationsTable -> Result NativeAllocationsTable.
Variable filterToDeallocationsSites : NativeAllocationsTable -> Result NativeAllocationsTable.
Variable filterToDeallocationsMemory : NativeAllocationsTable -> Result NativeAllocationsTable.
Context {CategoryList ImplementationFilter : Type}.
Context {CountsAndTimings CallTreeOfThread StackTimingByDepth FlameGraphTiming : Type}.
Variable getCategories : State -> CategoryList.
Variable getImplementationFilter : State -> ImplementationFilter.
Variable computeCallNodeMaxDepth : Thread -> CallNodeInfo -> Result nat.
Variable computeCallTreeCountsAndTimings :
  SamplesLikeTable -> CallNodeInfo -> Milliseconds -> bool -> Result CountsAndTimings.
Variable callTreeOf :
  Thread -> Milliseconds -> CallNodeInfo -> CategoryList -> ImplementationFilter ->
  CountsAndTimings -> CallTreeSummaryStrategy -> Result CallTreeOfThread.
Variable stackTimingByDepthOf :
  Thread -> CallNodeInfo -> nat -> Milliseconds -> Result StackTimingByDepth.
Variable flameGraphTimingOf :
  Thread -> CallNodeInfo -> CountsAndTimings -> Result FlameGraphTiming.

Lemma getCallTreeCountsAndTimings_Throw (state : State) message :
  getSamplesForCallTree filterToRetainedAllocations filterToAllocations
    filterToDeallocationsSites filterToDeallocationsMemory state = Throw message ->
  getCallTreeCountsAndTimings filterToRetainedAllocations filterToAllocations
    filterToDeallocationsSites filterToDeallocationsMemory
    computeCallTreeCountsAndTimings state = Throw message.
Proof.
  intros Hthrow. unfold getCallTreeCountsAndTimings, createSelector4.
  by rewrite Hthrow.
Qed.

(** X7: what the selection of the sample stream throws is what the call tree
    counts, the call tree and the flame graph timing throw: none of them calls
    the function it delegates to. *)
Theorem getSamplesForCallTree_failure_propagates (state : State) (message : string) :
  getSamplesForCallTree filterToRetainedAllocations filterToAllocations
    filterToDeallocationsSites filterToDeallocationsMemory state = Throw message ->
  getCallTreeCountsAndTimings filterToRetainedAllocations filterToAllocations
    filterToDeallocationsSites filterToDeallocationsMemory
    computeCallTreeCountsAndTimings state = Throw message
  /\
  getCallTree filterToRetainedAllocations filterToAllocations
    filterToDeallocationsSites filterToDeallocationsMemory
    getCategories getImplementationFilter computeCallTreeCountsAndTimings
    callTreeOf state = Throw message
  /\
  getFlameGraphTiming filterToRetainedAllocations filterToAllocations
    filterToDeallocationsSites filterToDeallocationsMemory
    computeCallTreeCountsAndTimings flameGraphTimingOf state = Throw message.
Proof.
  intros Hthrow.
  pose proof (getCallTreeCountsAndTimings_Throw state message Hthrow) as Hcounts.
  split; [done|]. split.
  - unfold getCallTree, createSelector7, threadSelectors.getPreviewFilteredThread,
      ProfileSelectors.getProfileInterval, getCallNodeInfo, createSelector2,
      threadSelectors.getFilteredThread, ProfileSelectors.getDefaultCategory.
    cbn [mbind Result_bind]. by rewrite Hcounts.
  - unfold getFlameGraphTiming, createSelector3, threadSelectors.getPreviewFilteredThread,
      getCallNodeInfo, createSelector2,
      threadSelectors.getFilteredThread, ProfileSelectors.getDefaultCategory.
    cbn [mbind Result_bind]. by rewrite Hcounts.
Qed.

(** X8: the stack timing does not read the sample stream: it returns whenever the
    two functions it delegates to return, whatever the strategy and the
    allocation tables are. *)
Theorem getStackTimingByDepth_returns (state : State) :
  (forall thread info, exists maxDepth, computeCallNodeMaxDepth thread info = Ok maxDepth) ->
  (forall thread info maxDepth interval,
     exists timing, stackTimingByDepthOf thread info maxDepth interval = Ok timing) ->
  exists timing,
    getStackTimingByDepth computeCallNodeMaxDepth stackTimingByDepthOf state = Ok timing.
Proof.
  intros Hdepth Htiming.
  unfold getStackTimingByDepth, createSelector4, getCallNodeMaxDepth, getCallNodeInfo,
    createSelector2, threadSelectors.getFilteredThread,
    ProfileSelectors.getDefaultCategory, ProfileSelectors.getProfileInterval.
  cbn [mbind Result_bind].
  match goal with |- context [computeCallNodeMaxDepth ?t ?i] =>
    destruct (Hdepth t i) as [maxDepth ->] end.
  cbn [mbind Result_bind]. apply Htiming.
Qed.

End DelegatingFacts.

(** ** More on the call-node table builder *)

Section BuilderCoverage.
Import ProfileData.

Lemma addStack_cases frames b entry :
  TableInvariant b ->
  (exists c : option nat,
     addStack frames b entry = recordMapping b c /\
     forall n, c = Some n -> n < length (builtCallNodes b))
  \/
  (exists (parent : option nat) frame,
     addStack frames b entry =
       recordMapping (addCallNode b parent frame) (Some (length (builtCallNodes b))) /\
     (forall p, parent = Some p -> p < length (builtCallNodes b)) /\
     callNodeByParentAndFunc b !! (parent, funcIndex frame) = None).
Proof.
  intros Hinv. unfold addStack.
  destruct (frames !! frameIndex entry) as [frame|]; [|left; by exists None].
  destruct (parentCallNodeOf (builtStackIndexToCallNodeIndex b) entry)
    as [parent|] eqn:Hparent; [|left; by exists None].
  destruct (callNodeByParentAndFunc b !! (parent, funcIndex frame))
    as [existing|] eqn:Hkey.
  - left. exists (Some existing). split; [done|]. intros n [= <-].
    apply (inv_keys _ Hinv) in Hkey as (node & Hnode & _). by eapply lookup_lt_Some.
  - right. exists parent, frame. split; [done|]. split; [|done].
    intros p ->. by eapply parentCallNodeOf_range.
Qed.

Lemma depthUnder_app_l (nodes extra : list CallNode) (parent : option nat) :
  (forall p, parent = Some p -> p < length nodes) ->
  depthUnder (nodes ++ extra) parent = depthUnder nodes parent.
Proof.
  intros Hrange. destruct parent as [p|]; [|done]. simpl.
  by rewrite lookup_app_l by by apply Hrange.
Qed.

Lemma depthsFollowParents_buildCallNodes frames (stacks : list Stack) :
  depthsFollowParents (builtCallNodes (buildCallNodes frames stacks)).
Proof.
  induction stacks as [|entry stacks IH] using rev_ind; [by intros n node|].
  rewrite buildCallNodes_snoc.
  pose proof (TableInvariant_buildCallNodes frames stacks) as Hinv.
  destruct (addStack_cases frames _ entry Hinv)
    as [(c & -> & _) | (parent & frame & -> & Hrange & _)]; [done|].
  simpl. intros n node [[Hn Hnode]|[-> <-]]%lookup_snoc_Some.
  - rewrite (IH n node Hnode). symmetry. apply depthUnder_app_l.
    intros p Hp. pose proof (inv_parents _ Hinv _ _ _ Hnode Hp). lia.
  - simpl. symmetry. by apply depthUnder_app_l.
Qed.

Lemma nodesCovered_buildCallNodes frames (stacks : list Stack) :
  let b := buildCallNodes frames stacks in
  nodesCovered b /\
  length (builtCallNodes b) <= length stacks /\
  length (builtStackIndexToCallNodeIndex b) = length stacks.
Proof.
  cbv zeta. induction stacks as [|entry stacks (Hcover & Hbound & Hlen)] using rev_ind.
  { split; [intros c Hc; simpl in Hc; lia | done]. }
  rewrite buildCallNodes_snoc, length_app. simpl.
  pose proof (TableInvariant_buildCallNodes frames stacks) as Hinv.
  destruct (addStack_cases frames _ entry Hinv)
    as [(c & -> & _) | (parent & frame & -> & _ & _)]; simpl.
  - split; [|rewrite length_app; simpl; split; lia].
    intros n Hn. destruct (Hcover n Hn) as [s Hs]. exists s.
    by apply lookup_app_l_Some.
  - rewrite !length_app. simpl. split; [|split; lia].
    intros n Hn. unfold nodesCovered in Hcover. simpl in Hn.
    rewrite length_app in Hn. simpl in Hn.
    destruct (decide (n = length (builtCallNodes (buildCallNodes frames stacks))))
      as [->|Hne].
    + eexists. by apply list_lookup_middle.
    + destruct (Hcover n) as [s Hs]; [lia|]. exists s. by apply lookup_app_l_Some.
Qed.

End BuilderCoverage.

Lemma getCallNodeInfo_Ok (state : State) (info : CallNodeInfo) :
  getCallNodeInfo state = Ok info ->
  info =
  ProfileData.getCallNodeInfo (stackTable (stateFilteredThread state))
    (frameTable (stateFilteredThread state)) (funcTable (stateFilteredThread state))
    (stateDefaultCategory state).
Proof. by intros [= <-]. Qed.

(** X12: in the call-node table of the selector, a root has depth zero and every
    other node is one level below its parent, which is in the table. *)
Theorem getCallNodeInfo_depths (state : State) (info : CallNodeInfo)
    (n : IndexIntoCallNodeTable) (node : CallNode) :
  getCallNodeInfo state = Ok info ->
  callNodeTable info !! n = Some node ->
  match parentCallNodeIndex node with
  | None => depth node = 0
  | Some parent =>
      exists parentNode,
        callNodeTable info !! parent = Some parentNode /\
        depth node = depth parentNode + 1
  end.
Proof.
  intros ->%getCallNodeInfo_Ok Hnode. simpl in *.
  pose proof (depthsFollowParents_buildCallNodes _ _ _ _ Hnode) as Hdepth.
  destruct (parentCallNodeIndex node) as [parent|] eqn:Hp; [|done].
  pose proof (inv_parents _ (TableInvariant_buildCallNodes _ _) _ _ _ Hnode Hp) as Hparent.
  destruct (lookup_lt_is_Some_2
              (ProfileData.builtCallNodes
                 (ProfileData.buildCallNodes (frameTable (stateFilteredThread state))
                    (stackTable (stateFilteredThread state)))) parent)
    as [parentNode Hlookup]; [apply lookup_lt_Some in Hnode; lia|].
  exists parentNode. split; [done|]. simpl in Hdepth. by rewrite Hlookup in Hdepth.
Qed.

Lemma pathOf_length (table : list CallNode) :
  parentsPrecede table -> depthsFollowParents table ->
  forall n, n < length table ->
    forall node, table !! n = Some node ->
      length (ProfileData.pathOf table n) = depth node + 1.
Proof.
  intros Hwf Hdepths. induction n as [n IH] using lt_wf_ind. intros Hlt node Hnode.
  rewrite (pathOf_unfold _ _ _ Hwf Hnode), length_app. simpl.
  rewrite (Hdepths _ _ Hnode).
  destruct (parentCallNodeIndex node) as [parent|] eqn:Hp; [|done]. simpl.
  pose proof (Hwf _ _ _ Hnode Hp).
  destruct (lookup_lt_is_Some_2 table parent) as [parentNode Hparent]; [lia|].
  rewrite Hparent. rewrite (IH parent) with (node := parentNode); [lia | lia | lia | done].
Qed.

(** X13: the depth of a call node is the number of its ancestors: its path has one
    function per level. *)
Theorem getCallNodeInfo_depth_is_path_length (state : State) (info : CallNodeInfo)
    (n : IndexIntoCallNodeTable) (node : CallNode) :
  getCallNodeInfo state = Ok info ->
  callNodeTable info !! n = Some node ->
  length (ProfileData.pathOf (callNodeTable info) n) = depth node + 1.
Proof.
  intros ->%getCallNodeInfo_Ok Hnode. simpl in *.
  apply pathOf_length; [| | by eapply lookup_lt_Some | done].
  - apply TableInvariant_buildCallNodes.
  - apply depthsFollowParents_buildCallNodes.
Qed.

(** X14: every call node is the call node of a stack, there are no more call nodes
    than stacks, and the index has one entry per stack. *)
Theorem getCallNodeInfo_nodes_come_from_stacks (state : State) (info : CallNodeInfo) :
  getCallNodeInfo state = Ok info ->
  (forall c, c < length (callNodeTable info) ->
     exists s, stackIndexToCallNodeIndex info !! s = Some (Some c))
  /\ length (callNodeTable info) <= length (stackTable (stateFilteredThread state))
  /\ length (stackIndexToCallNodeIndex info) =
     length (stackTable (stateFilteredThread state)).
Proof.
  intros ->%getCallNodeInfo_Ok. simpl.
  apply (nodesCovered_buildCallNodes (frameTable (stateFilteredThread state))
           (stackTable (stateFilteredThread state))).
Qed.

(** X10: with stacks in order, the call node of a stack has the function path of
    the stack, and a stack without a call node has no function path. *)
Theorem getCallNodeInfo_call_node_has_stack_path (state : State) (info : CallNodeInfo)
    (s : IndexIntoStackTable) (mapped : option IndexIntoCallNodeTable) :
  let thread := stateFilteredThread state in
  stackParentsPrecede (stackTable thread) ->
  getCallNodeInfo state = Ok info ->
  stackIndexToCallNodeIndex info !! s = Some mapped ->
  ProfileData.stackFuncPath (stackTable thread) (frameTable thread) s =
  ProfileData.pathOf (callNodeTable info) <$> mapped.
Proof.
  cbv zeta. intros Hordered ->%getCallNodeInfo_Ok Hs. simpl in *.
  pose proof (PathInvariant_buildCallNodes _ (frameTable (stateFilteredThread state))
                Hordered) as Hinv.
  destruct mapped as [c|]; simpl.
  - by apply (inv_mapped _ _ _ _ Hinv).
  - destruct (ProfileData.stackFuncPath _ _ s) as [path|] eqn:Hpath; [|done].
    destruct (inv_total _ _ _ _ Hinv s) as [c Hc]; [| by eexists | congruence].
    rewrite <- (inv_length _ _ _ _ Hinv). by eapply lookup_lt_Some.
Qed.

(** X11: with stacks in order, two stacks that are collapsed to the same call node
    have the same function path. *)
Theorem getCallNodeInfo_same_call_node (state : State) (info : CallNodeInfo)
    (s1 s2 : IndexIntoStackTable) (c : IndexIntoCallNodeTable) :
  let thread := stateFilteredThread state in
  stackParentsPrecede (stackTable thread) ->
  getCallNodeInfo state = Ok info ->
  stackIndexToCallNodeIndex info !! s1 = Some (Some c) ->
  stackIndexToCallNodeIndex info !! s2 = Some (Some c) ->
  ProfileData.stackFuncPath (stackTable thread) (frameTable thread) s1 =
  ProfileData.stackFuncPath (stackTable thread) (frameTable thread) s2.
Proof.
  cbv zeta. intros Hordered ->%getCallNodeInfo_Ok H1 H2. simpl in *.
  pose proof (PathInvariant_buildCallNodes _ (frameTable (stateFilteredThread state))
                Hordered) as Hinv.
  rewrite (inv_mapped _ _ _ _ Hinv _ _ H1). by rewrite (inv_mapped _ _ _ _ Hinv _ _ H2).
Qed.

(** X9: a selected index that is not [null] is a node of the table, and the path
    of that node is the selected path. *)
Theorem getSelectedCallNodeIndex_selects_the_path (state : State)
    (info : CallNodeInfo) (n : IndexIntoCallNodeTable) :
  getCallNodeInfo state = Ok info ->
  getSelectedCallNodeIndex state = Ok (Some n) ->
  n < length (callNodeTable info) /\
  ProfileData.pathOf (callNodeTable info) n = selectedCallNodePath (stateViewOptions state).
Proof.
  intros ->%getCallNodeInfo_Ok. rewrite getSelectedCallNodeIndex_eq. intros [= Hsome].
  apply getCallNodeIndexFromPath_Some in Hsome; [done|].
  apply (inv_parents _ (TableInvariant_buildCallNodes _ _)).
Qed.

(** ** More on the cache of a selector *)

Section NodeReadsFacts.
Context {Out : Type}.
Variable resultFunc : list nat -> Result Out.

Import DerivationGraph.

Lemma cacheSound_emptyNode : cacheSound resultFunc emptyNode.
Proof. intros recorded output [=]. Qed.

Lemma read_keeps_cacheSound upstream node :
  cacheSound resultFunc node -> cacheSound resultFunc (read resultFunc upstream node).2.
Proof.
  intros Hsound.
  destruct (read resultFunc upstream node) as [[ref|message] node'] eqn:Hread; simpl.
  - by apply (read_sound resultFunc upstream node ref node').
  - apply read_Throw_keeps_cache in Hread as [Hcached Houtputs].
    intros recorded output Hc. rewrite Hcached in Hc.
    destruct (Hsound _ _ Hc) as (value & Hvalue & Hf). exists value.
    unfold valueOf in *. by rewrite Houtputs.
Qed.

Lemma readAll_cacheSound (requests : list (list nat)) :
  forall node, cacheSound resultFunc node ->
    cacheSound resultFunc (readAll resultFunc requests node).
Proof.
  induction requests as [|upstream requests IH]; intros node Hsound; [done|].
  simpl. apply IH. by apply read_keeps_cacheSound.
Qed.

(** X17: after any sequence of reads of a fresh node, reads that returned or threw,
    a read that returns does not serve a stale output: the reference holds what
    the wrapped function computes from the upstream values of this read. *)
Theorem read_after_reads_is_current (requests : list (list nat))
    (upstream : list nat) (ref : nat) (node' : Node Out) :
  read resultFunc upstream (readAll resultFunc requests emptyNode) = (Ok ref, node') ->
  exists value, valueOf node' ref = Some value /\ resultFunc upstream = Ok value.
Proof.
  intros Hread.
  eapply (read_sound resultFunc upstream _ ref node'); [|exact Hread].
  apply readAll_cacheSound, cacheSound_emptyNode.
Qed.

(** X18: a recomputation that throws leaves the cache as it was: the inputs that
    were cached before are still served from the cache, by the same reference
    and without another recomputation. *)
Theorem read_failure_keeps_previous_output (upstream changed : list nat)
    (node node1 node2 : Node Out) (ref : nat) (message : string) :
  read resultFunc upstream node = (Ok ref, node1) ->
  read resultFunc changed node1 = (Throw message, node2) ->
  read resultFunc upstream node2 = (Ok ref, node2).
Proof.
  intros Hfirst Hthrow.
  apply read_Ok_cached in Hfirst.
  apply read_Throw_keeps_cache in Hthrow as [Hcached _].
  apply read_hit. by rewrite Hcached.
Qed.

End NodeReadsFacts.

(** ** More on the call tree aggregator *)

Section AggregatorOrderFacts.
Import CallTree.










Lemma omap_directAttribution_resolved info interval rows :
  omap (directAttribution info interval) (resolvedRows info rows) =
  omap (directAttribution info interval) rows.
Proof.
  unfold resolvedRows. induction rows as [|row rows IH]; [done|].
  rewrite filter_cons. csimpl.
  destruct (decide (is_Some (rowCallNode info row))) as [Hsome|Hnone]; csimpl.
  - by rewrite IH.
  - rewrite IH. unfold directAttribution at 2.
    destruct (rowCallNode info row); [by destruct Hnone|done].
Qed.

Lemma foldl_reRootRow_resolved info interval rows :
  forall acc,
    foldl (reRootRow info interval) acc (resolvedRows info rows) =
    foldl (reRootRow info interval) acc rows.
Proof.
  unfold resolvedRows. induction rows as [|row rows IH]; intros acc; [done|].
  rewrite filter_cons. simpl.
  destruct (decide (is_Some (rowCallNode info row))) as [Hsome|Hnone]; simpl.
  - apply IH.
  - rewrite IH. f_equal. unfold reRootRow.
    destruct (rowCallNode info row); [by destruct Hnone|done].
Qed.

(** X16: the rows that resolve to no call node are ignored: without them the
    aggregate is the same, node by node, for the tree as it is and for the
    inverted tree. *)
Theorem computeCallTreeCountsAndTimings_ignores_unresolved (rows : list Row)
    (info : CallNodeInfo) (interval : Z) (invertCallstack : bool) :
  computeCallTreeCountsAndTimings (resolvedRows info rows) info interval invertCallstack =
  computeCallTreeCountsAndTimings rows info interval invertCallstack.
Proof.
  unfold computeCallTreeCountsAndTimings. destruct invertCallstack.
  - by rewrite foldl_reRootRow_resolved.
  - by rewrite omap_directAttribution_resolved.
Qed.

End AggregatorOrderFacts.

(** * The further properties on the small thread *)

Lemma getCallTreeSummaryStrategy_supported_witness :
  "native-allocations" = "timing"
  \/ ("native-allocations" = "js-allocations" /\
      is_Some (jsAllocations scenarioThread))
  \/ (isNativeAllocationStrategy "native-allocations" /\
      is_Some (nativeAllocations scenarioThread)).
Proof.
  apply (getCallTreeSummaryStrategy_supported
           (scenarioState scenarioThread [] "native-allocations") "native-allocations").
  reflexivity.
Defined.

Lemma getSamplesForCallTree_falls_back_to_samples_witness :
  getSamplesForCallTree Ok Ok Ok Ok
    (scenarioState scenarioTracerThread [] "native-deallocations-memory")
  = Ok (OfSamples (samples scenarioTracerThread)).
Proof.
  apply (getSamplesForCallTree_falls_back_to_samples Ok Ok Ok Ok
           (scenarioState scenarioTracerThread [] "native-deallocations-memory")).
  right. right. split; [|reflexivity].
  unfold isNativeAllocationStrategy. simpl. tauto.
Defined.

Lemma getSamplesForCallTree_table_filtered_away_witness :
  exists message,
    getSamplesForCallTree Ok Ok Ok Ok (scenarioFilteredState "js-allocations")
    = Throw message.
Proof.
  apply (getSamplesForCallTree_table_filtered_away Ok Ok Ok Ok
           (scenarioFilteredState "js-allocations")).
  left. split; [reflexivity|]. split; [by eexists | reflexivity].
Defined.

Lemma getSamplesForCallTree_sites_need_no_addresses_witness :
  ("native-allocations" = "native-allocations" ->
   getSamplesForCallTree Ok Ok Ok Ok (scenarioState scenarioThread [] "native-allocations")
   = OfNativeAllocations <$> Ok scenarioNativeAllocations)
  /\
  ("native-allocations" = "native-deallocations-sites" ->
   getSamplesForCallTree Ok Ok Ok Ok (scenarioState scenarioThread [] "native-allocations")
   = OfNativeAllocations <$> Ok scenarioNativeAllocations).
Proof.
  apply (getSamplesForCallTree_sites_need_no_addresses Ok Ok Ok Ok
           (scenarioState scenarioThread [] "native-allocations")
           scenarioNativeAllocations);
    [by eexists | reflexivity].
Defined.

Lemma getRightClickedCallNodeIndex_of_selected_path_witness :
  getRightClickedCallNodeIndex (scenarioFilteredState "timing") =
  getSelectedCallNodeIndex (scenarioFilteredState "timing").
Proof.
  apply (getRightClickedCallNodeIndex_of_selected_path (scenarioFilteredState "timing")).
  reflexivity.
Defined.

Example scenario_right_clicked :
  getRightClickedCallNodeIndex (scenarioFilteredState "timing") = Ok (Some 2).
Proof. vm_compute. reflexivity. Qed.

Lemma getSamplesForCallTree_failure_propagates_witness :
  let state := scenarioState scenarioThread [] "native-retained-allocations" in
  getCallTreeCountsAndTimings Ok Ok Ok Ok
    (fun _ info _ _ => Ok (length (callNodeTable info))) state
  = Throw missingMemoryAddresses
  /\
  getCallTree Ok Ok Ok Ok (fun _ => tt) (fun _ => tt)
    (fun _ info _ _ => Ok (length (callNodeTable info)))
    (fun _ _ _ _ _ counts _ => Ok counts) state
  = Throw missingMemoryAddresses
  /\
  getFlameGraphTiming Ok Ok Ok Ok
    (fun _ info _ _ => Ok (length (callNodeTable info)))
    (fun _ _ counts => Ok counts) state
  = Throw missingMemoryAddresses.
Proof.
  apply (getSamplesForCallTree_failure_propagates Ok Ok Ok Ok
           (fun _ => tt) (fun _ => tt)
           (fun _ info _ _ => Ok (length (callNodeTable info)))
           (fun _ _ _ _ _ counts _ => Ok counts)
           (fun _ _ counts => Ok counts)
           (scenarioState scenarioThread [] "native-retained-allocations")
           missingMemoryAddresses).
  reflexivity.
Defined.

Lemma getStackTimingByDepth_returns_witness :
  exists timing : nat,
    getStackTimingByDepth
      (fun _ info => Ok (length (callNodeTable info)))
      (fun _ _ maxDepth _ => Ok maxDepth)
      (scenarioState scenarioThread [] "native-retained-allocations")
    = Ok timing.
Proof.
  apply (getStackTimingByDepth_returns
           (fun _ info => Ok (length (callNodeTable info)))
           (fun _ _ maxDepth _ => Ok maxDepth)
           (scenarioState scenarioThread [] "native-retained-allocations")).
  - intros thread info. eexists. reflexivity.
  - intros thread info maxDepth interval. eexists. reflexivity.
Defined.

Lemma getCallNodeInfo_depths_witness :
  exists parentNode,
    callNodeTable scenarioCallNodeInfo !! 0 = Some parentNode /\
    1 = depth parentNode + 1.
Proof.
  apply (getCallNodeInfo_depths (scenarioState scenarioThread [] "timing")
           scenarioCallNodeInfo 2
           {| parentCallNodeIndex := Some 0; callNodeFunc := 2;
              callNodeCategory := 0; depth := 1 |});
    reflexivity.
Defined.

Lemma getCallNodeInfo_depth_is_path_length_witness :
  length (ProfileData.pathOf (callNodeTable scenarioCallNodeInfo) 2) = 1 + 1.
Proof.
  apply (getCallNodeInfo_depth_is_path_length (scenarioState scenarioThread [] "timing")
           scenarioCallNodeInfo 2
           {| parentCallNodeIndex := Some 0; callNodeFunc := 2;
              callNodeCategory := 0; depth := 1 |});
    reflexivity.
Defined.

Lemma getCallNodeInfo_nodes_come_from_stacks_witness :
  (forall c, c < length (callNodeTable scenarioCallNodeInfo) ->
     exists s, stackIndexToCallNodeIndex scenarioCallNodeInfo !! s = Some (Some c))
  /\ length (callNodeTable scenarioCallNodeInfo) <= length scenarioStacks
  /\ length (stackIndexToCallNodeIndex scenarioCallNodeInfo) = length scenarioStacks.
Proof.
  apply (getCallNodeInfo_nodes_come_from_stacks (scenarioState scenarioThread [] "timing")
           scenarioCallNodeInfo).
  reflexivity.
Defined.

Lemma getCallNodeInfo_call_node_has_stack_path_witness :
  ProfileData.stackFuncPath scenarioStacks scenarioFrames 2 =
  ProfileData.pathOf (callNodeTable scenarioCallNodeInfo) <$> Some 1.
Proof.
  apply (getCallNodeInfo_call_node_has_stack_path
           (scenarioState scenarioThread [] "timing") scenarioCallNodeInfo 2 (Some 1));
    [exact scenarioStacks_ordered | reflexivity | reflexivity].
Defined.

Lemma getCallNodeInfo_same_call_node_witness :
  ProfileData.stackFuncPath scenarioStacks scenarioFrames 1 =
  ProfileData.stackFuncPath scenarioStacks scenarioFrames 2.
Proof.
  apply (getCallNodeInfo_same_call_node
           (scenarioState scenarioThread [] "timing") scenarioCallNodeInfo 1 2 1);
    [exact scenarioStacks_ordered | reflexivity | reflexivity | reflexivity].
Defined.

Lemma getSelectedCallNodeIndex_selects_the_path_witness :
  2 < length (callNodeTable scenarioCallNodeInfo) /\
  ProfileData.pathOf (callNodeTable scenarioCallNodeInfo) 2 = [0; 2].
Proof.
  apply (getSelectedCallNodeIndex_selects_the_path
           (scenarioState scenarioThread [0; 2] "timing") scenarioCallNodeInfo 2);
    reflexivity.
Defined.

Lemma read_after_reads_is_current_witness :
  let resultFunc := fun upstream : list nat =>
    match upstream with
    | [] => Throw "no input"
    | _ => Ok (length upstream)
    end in
  exists value,
    DerivationGraph.valueOf
      {| DerivationGraph.cached := Some ([8], 1);
         DerivationGraph.outputs := [2; 1];
         DerivationGraph.recomputations := 3 |} 1 = Some value
    /\ resultFunc [8] = Ok value.
Proof.
  apply (read_after_reads_is_current
           (fun upstream : list nat =>
              match upstream with
              | [] => Throw "no input"
              | _ => Ok (length upstream)
              end)
           [[4; 7]; []; [4; 7]] [8] 1).
  reflexivity.
Defined.

Lemma read_failure_keeps_previous_output_witness :
  let resultFunc := fun upstream : list nat =>
    match upstream with
    | [] => Throw "no input"
    | _ => Ok (length upstream)
    end in
  let node2 :=
    {| DerivationGraph.cached := Some ([4; 7], 0);
       DerivationGraph.outputs := [2];
       DerivationGraph.recomputations := 2 |} in
  DerivationGraph.read resultFunc [4; 7] node2 = (Ok 0, node2).
Proof.
  apply (read_failure_keeps_previous_output
           (fun upstream : list nat =>
              match upstream with
              | [] => Throw "no input"
              | _ => Ok (length upstream)
              end)
           [4; 7] [] DerivationGraph.emptyNode
           {| DerivationGraph.cached := Some ([4; 7], 0);
              DerivationGraph.outputs := [2];
              DerivationGraph.recomputations := 1 |}
           {| DerivationGraph.cached := Some ([4; 7], 0);
              DerivationGraph.outputs := [2];
              DerivationGraph.recomputations := 2 |}
           0 "no input");
    reflexivity.
Defined.

